(** * AIFrameWork: the prompt template renderer and the OpenAI dispatcher

    A shallow embedding of [Agent/llms/base_llm.py] (class
    [LMTemplateParser]) and [Agent/llms/openai.py] (class [GPTAPI]),
    together with the properties of the design document that concern
    them.

    Python values are embedded with the types the code gives them: a
    [dict] used as a table is a [gmap], a [set] is a [gset], an optional
    dictionary entry is an [option], an exception is a value of [exn]
    carried by [result]. *)

From Stdlib Require Import ZArith QArith String Ascii List Lia.
From stdpp Require Import base gmap strings list.

Local Open Scope Z_scope.

(** ** Exceptions and the error monad *)

(** The exceptions the modelled code can raise.  The two [RuntimeError]s
    of [GPTAPI._chat] are kept apart by constructor instead of by message
    text. *)
Inductive exn : Type :=
  | AssertionError
  | KeyError (key : string)
  | AttributeError
  | TypeError
  | UnboundLocalError
  | IndexError
  | NotImplementedError (model_type : string)
  | AllKeysInsufficientQuota
  | ValueError
  | CallingOpenAIFailed (max_num_retries : Z) (errmsg : string).

Inductive result (A : Type) : Type :=
  | Ok (a : A)
  | Raise (e : exn).
Arguments Ok {A} a.
Arguments Raise {A} e.

Definition bind {A B : Type} (m : result A) (k : A → result B) : result B :=
  match m with
  | Ok a => k a
  | Raise e => Raise e
  end.

Notation "'do' x <- m ; k" := (bind m (fun x => k))
  (at level 10, x name, m at level 100, k at level 200).

Definition is_raise {A : Type} (m : result A) : bool :=
  match m with Ok _ => false | Raise _ => true end.

(** ** [Agent/llms/base_llm.py] *)

Module BaseLLM.

(** The value stored under ['begin'] in a role configuration: a plain
    string, or a dictionary with the optional entries ['with_name'],
    ['without_name'] and ['name'] (a table of known names). *)
Inductive Begin : Type :=
  | BeginStr (s : string)
  | BeginDict (with_name without_name : option string)
              (name : option (gmap string string)).

(** One entry of the meta template.  [self.roles] is declared
    [Dict[str, dict]], "maps role name to config": every entry carries its
    role name; the other keys are optional and read with [.get]. *)
Record RoleItem : Type := mkRole {
  role : string;
  begin : option Begin;
  end_ : option string;
  fallback_role : option string;
  generate : option bool
}.

(** A structured turn of a dialogue.  Every key is optional: the code
    itself passes the empty dictionary as a message. *)
Record Message : Type := mkMsg {
  msg_role : option string;
  msg_content : option string;
  msg_name : option string
}.

Definition empty_message : Message := mkMsg None None None.

(** An element of a dialogue: [Union[str, Dict]]. *)
Inductive Turn : Type :=
  | TStr (s : string)
  | TMsg (m : Message).

(** The argument of [__call__]: [isinstance(dialog, (str, list))]. *)
Inductive Dialog : Type :=
  | DStr (s : string)
  | DList (items : list Turn).

(** The instance attributes of [LMTemplateParser].  When the meta
    template is falsy [__init__] does not assign [self.roles]; the field is
    then the empty table and [__call__] never reads it. *)
Record LMTemplateParser : Type := mkParser {
  meta_template : option (list RoleItem);
  roles : gmap string RoleItem
}.

(** Truth value of [meta_template]: [None] and the empty list are falsy. *)
Definition truthy_list {A : Type} (l : option (list A)) : bool :=
  match l with
  | Some (_ :: _) => true
  | _ => false
  end.

(** Truth value of an optional string entry read with [.get]. *)
Definition truthy_str (s : option string) : bool :=
  match s with
  | Some EmptyString | None => false
  | Some _ => true
  end.

(** Truth value of [.get('generate', False)]. *)
Definition truthy_flag (b : option bool) : bool :=
  match b with
  | Some true => true
  | _ => false
  end.

(** [dict.get(key, '')] on an optional string entry. *)
Definition get_str (s : option string) : string :=
  match s with
  | Some v => v
  | None => EmptyString
  end.

(** The [for] loop of [__init__]: the assertion that the role is new, then
    the insertion of a copy of the entry. *)
Fixpoint init_roles (items : list RoleItem) (acc : gmap string RoleItem)
  : result (gmap string RoleItem) :=
  match items with
  | [] => Ok acc
  | item :: rest =>
      match acc !! role item with
      | Some _ => Raise AssertionError
      | None => init_roles rest (<[role item := item]> acc)
      end
  end.

Definition __init__ (meta : option (list RoleItem)) : result LMTemplateParser :=
  if truthy_list meta then
    do table <- init_roles (default [] meta) ∅ ;
    Ok (mkParser meta table)
  else Ok (mkParser meta ∅).

Section Render.

(** [str.format(name=...)] of the Python library: the template and the
    value of the only keyword argument, [name]. *)
Variable str_format : string → string → result string.

(** [_format_begin(role_cfg, message)].  [role_cfg] is the result of a
    [dict.get] on the role table and may be Python's [None]. *)
Definition _format_begin (role_cfg : option RoleItem) (message : Message)
  : result string :=
  match msg_name message with
  | Some name =>
      match role_cfg with
      | None => Raise TypeError
      | Some cfg =>
          match begin cfg with
          | None => Raise (KeyError "begin")
          | Some (BeginStr _) => Raise AttributeError
          | Some (BeginDict with_name _ names) =>
              match default ∅ names !! name with
              | Some known => str_format (get_str with_name) known
              | None => str_format (get_str with_name) name
              end
          end
      end
  | None =>
      match role_cfg with
      | None => Raise AttributeError
      | Some cfg =>
          match begin cfg with
          | None => Ok EmptyString
          | Some (BeginStr s) => Ok s
          | Some (BeginDict _ without_name _) => Ok (get_str without_name)
          end
      end
  end.

(** Lines 57-60 of [_prompt2str]: the configuration of the turn's role,
    redirected one hop when it declares a truthy [fallback_role].  The
    result is [None] when the last [dict.get] finds nothing. *)
Definition merged_prompt (self : LMTemplateParser) (prompt : Message)
  : result (option RoleItem) :=
  match msg_role prompt with
  | None => Raise (KeyError "role")
  | Some r =>
      match roles self !! r with
      | None => Raise AttributeError
      | Some cfg =>
          if truthy_str (fallback_role cfg)
          then Ok (roles self !! get_str (fallback_role cfg))
          else Ok (Some cfg)
      end
  end.

Definition _prompt2str (self : LMTemplateParser) (prompt : Turn) (last : bool)
  : result string :=
  match prompt with
  | TStr s => Ok s
  | TMsg m =>
      do merged <- merged_prompt self m ;
      do begin_ <- _format_begin merged m ;
      match merged with
      | None => Raise AttributeError
      | Some cfg =>
          if last && truthy_flag (generate cfg)
          then Ok (begin_ +:+ get_str (msg_content m))
          else
            let res := begin_ +:+ get_str (msg_content m) +:+ get_str (end_ cfg) in
            if last && negb (String.eqb (role cfg) "assistant")
            then
              match roles self !! "assistant" with
              | None => Raise (KeyError "assistant")
              | Some assistant =>
                  do b <- _format_begin (Some assistant) empty_message ;
                  Ok (res +:+ b)
              end
            else Ok res
      end
  end.

(** The [for index, item in enumerate(dialog)] loop of [__call__]; [n] is
    [len(dialog)]. *)
Fixpoint render_loop (self : LMTemplateParser) (n : nat) (index : nat)
    (items : list Turn) (prompt : string) : result string :=
  match items with
  | [] => Ok prompt
  | TStr s :: rest => render_loop self n (S index) rest (prompt +:+ s)
  | (TMsg _ as item) :: rest =>
      do new_str <- _prompt2str self item (Z.of_nat index =? Z.of_nat n - 1) ;
      render_loop self n (S index) rest (prompt +:+ new_str)
  end.

(** [__call__(dialog)].  With a falsy meta template the name [prompt] is
    never bound and [return prompt] raises [UnboundLocalError]. *)
Definition __call__ (self : LMTemplateParser) (dialog : Dialog) : result string :=
  match dialog with
  | DStr s => Ok s
  | DList items =>
      if truthy_list (meta_template self)
      then render_loop self (length items) 0 items EmptyString
      else Raise UnboundLocalError
  end.

End Render.

End BaseLLM.

(** ** [Agent/llms/openai.py] *)

Module OpenAI.

(** A value of the [gen_params] dictionary or of the request body. *)
Inductive Value : Type :=
  | VInt (z : Z)
  | VFloat (q : Q)
  | VStr (s : string)
  | VList (l : list string)
  | VDict (d : gmap string string).

(** The instance attributes of [GPTAPI] that [_chat] and
    [generate_request_data] read or write.  [retry], [orgs] and [org_ctr]
    are assigned by the base class [BaseAPILLM], whose file only declares
    them for this one; they are fields like the others. *)
Record GPTAPI : Type := mkGPTAPI {
  model_type : string;
  retry : Z;
  json_mode : bool;
  keys : list string;
  invalid_keys : gset string;
  key_ctr : nat;
  orgs : list string;
  org_ctr : nat
}.

Definition set_key_ctr (self : GPTAPI) (c : nat) : GPTAPI :=
  mkGPTAPI (model_type self) (retry self) (json_mode self) (keys self)
           (invalid_keys self) c (orgs self) (org_ctr self).

Definition set_org_ctr (self : GPTAPI) (c : nat) : GPTAPI :=
  mkGPTAPI (model_type self) (retry self) (json_mode self) (keys self)
           (invalid_keys self) (key_ctr self) (orgs self) c.

Definition add_invalid_key (self : GPTAPI) (key : string) : GPTAPI :=
  mkGPTAPI (model_type self) (retry self) (json_mode self) (keys self)
           ({[key]} ∪ invalid_keys self) (key_ctr self) (orgs self) (org_ctr self).

(** [str.lower] on the ASCII letters, which is all the prefix tests of
    [generate_request_data] look at. *)
Definition lower_ascii (c : ascii) : ascii :=
  let n := nat_of_ascii c in
  if (65 <=? n)%nat && (n <=? 90)%nat then ascii_of_nat (n + 32) else c.

Fixpoint lower (s : string) : string :=
  match s with
  | EmptyString => EmptyString
  | String c rest => String (lower_ascii c) (lower rest)
  end.

Definition startswith (s p : string) : bool := String.prefix p s.

(** What [generate_request_data] returns: the pair of empty strings when
    the token limit is not positive, else the header and the body. *)
Inductive RequestData : Type :=
  | EmptyRequest
  | Request (header : gmap string string) (data : gmap string Value).

(** [min(gen_params.pop('max_new_tokens'), 4096)]: the first argument wins
    a tie; a string or a list does not compare with an integer. *)
Definition min_4096 (v : Value) : result Value :=
  match v with
  | VInt z => Ok (if 4096 <? z then VInt 4096 else VInt z)
  | VFloat q => Ok (if Qle_bool q (4096 # 1) then VFloat q else VInt 4096)
  | _ => Raise TypeError
  end.

(** [max_tokens <= 0] on a number. *)
Definition not_positive (v : Value) : bool :=
  match v with
  | VInt z => z <=? 0
  | VFloat q => Qle_bool q (0 # 1)
  | _ => false
  end.

(** [if key in d: d[new] = d.pop(key)]. *)
Definition rename_key (key new : string) (d : gmap string Value)
  : gmap string Value :=
  match d !! key with
  | Some v => <[new := v]> (delete key d)
  | None => d
  end.

Definition json_object_format : Value := VDict {["type" := "json_object"]}.

(** The body [{'model': ..., 'messages': ..., 'n': 1, **gen_params}] and
    the optional response format. *)
Definition request_body (model messages : string) (gen_params : gmap string Value)
    (json : bool) : gmap string Value :=
  let data :=
    gen_params ∪ <["model" := VStr model]>
                 (<["messages" := VStr messages]> {["n" := VInt 1]}) in
  if json then <["response_format" := json_object_format]> data else data.

Definition generate_request_data (model messages : string)
    (gen_params : gmap string Value) (json : bool) : result RequestData :=
  match gen_params !! "max_new_tokens" with
  | None => Raise (KeyError "max_new_tokens")
  | Some limit =>
      do max_tokens <- min_4096 limit ;
      if not_positive max_tokens then Ok EmptyRequest
      else
        let header : gmap string string :=
          {["content-type" := "application/json"]} in
        let gen_params := delete "max_new_tokens" gen_params in
        let gen_params := <["max_tokens" := max_tokens]> gen_params in
        let gen_params := rename_key "stop_words" "stop" gen_params in
        let gen_params :=
          rename_key "repetition_penalty" "frequency_penalty" gen_params in
        if startswith (lower model) "gpt" || startswith (lower model) "qwen"
        then
          let gen_params := delete "top_k" gen_params in
          let gen_params := delete "skip_special_tokens" gen_params in
          let gen_params := delete "session_id" gen_params in
          Ok (Request header (request_body model messages gen_params json))
        else if startswith (lower model) "internlm"
        then Ok (Request header (request_body model messages gen_params json))
        else Raise (NotImplementedError model)
  end.

(** What one pass of the [try] statement of [_chat] meets, classified by
    the handler that takes it:
    - [ConnectionError]: [requests.post] raises it;
    - [JSONDecodeError]: [raw_response.json()] raises it;
    - [Completion]: the first choice's message content is there;
    - [ErrorReply]: the content lookup raises [KeyError] and the response
      has an ['error'] entry, with or without a ['code'];
    - [NoChoices]: the lookup raises [KeyError] and there is no ['error'];
    - [OtherException]: any other exception. *)
Inductive Reply : Type :=
  | ConnectionError (traceback : string)
  | JSONDecodeError (content : string)
  | Completion (content : string)
  | ErrorReply (code : option string) (error_str : string)
  | NoChoices
  | OtherException (error_str traceback : string).

(** The local variables of the retry loop of [_chat], the instance, and
    the number of requests posted so far.  [header] is [None] for the
    empty string that [generate_request_data] returns without a request;
    [key] is only read after the critical section has assigned it. *)
Record Loop : Type := mkLoop {
  self : GPTAPI;
  max_num_retries : Z;
  errmsg : string;
  header : option (gmap string string);
  key : string;
  posted : nat
}.

(** How one pass of the loop body ends.  [Spinning] is the inner
    [while True] not finishing within the iterations allowed. *)
Inductive Pass : Type :=
  | Continue (st : Loop)
  | Return (s : string) (st : Loop)
  | Throw (e : exn) (st : Loop)
  | Spinning (st : Loop).

(** How a call ends: a result, or the loop still running when the number
    of passes allowed is used up. *)
Inductive Run : Type :=
  | Finished (r : result string) (st : Loop)
  | Running (st : Loop).

(** How the inner [while True] ends: on a key that is not invalidated, or
    with the exception of the lookup [self.keys[self.key_ctr]]; either way
    the instance has the cursor where the loop left it. *)
Inductive Selection : Type :=
  | Selected (this : GPTAPI)
  | Failed (e : exn) (this : GPTAPI).

(** The inner [while True]: advance the cursor cyclically until the key
    under it is not in the invalidated set. *)
Fixpoint next_key (spins : nat) (self : GPTAPI) : option Selection :=
  match spins with
  | O => None
  | S spins' =>
      let ctr := S (key_ctr self) in
      let ctr := if (ctr =? length (keys self))%nat then O else ctr in
      let self := set_key_ctr self ctr in
      match keys self !! ctr with
      | None => Some (Failed IndexError self)
      | Some key =>
          if bool_decide (key ∈ invalid_keys self)
          then next_key spins' self
          else Some (Selected self)
      end
  end.

(** [if self.orgs:], the advance of the organization cursor and the entry
    of the header; the instance is returned with the cursor advanced also
    when the lookup [self.orgs[self.org_ctr]] raises. *)
Definition next_org (self : GPTAPI) (header : gmap string string)
  : GPTAPI * result (gmap string string) :=
  match orgs self with
  | [] => (self, Ok header)
  | _ :: _ =>
      let ctr := S (org_ctr self) in
      let ctr := if (ctr =? length (orgs self))%nat then O else ctr in
      let self := set_org_ctr self ctr in
      match orgs self !! ctr with
      | None => (self, Raise IndexError)
      | Some org => (self, Ok (<["OpenAI-Organization" := org]> header))
      end
  end.

Definition with_self (st : Loop) (s : GPTAPI) : Loop :=
  mkLoop s (max_num_retries st) (errmsg st) (header st) (key st) (posted st).

Definition with_header (st : Loop) (h : gmap string string) : Loop :=
  mkLoop (self st) (max_num_retries st) (errmsg st) (Some h) (key st) (posted st).

Definition with_key (st : Loop) (k : string) : Loop :=
  mkLoop (self st) (max_num_retries st) (errmsg st) (header st) k (posted st).

Definition with_errmsg (st : Loop) (msg : string) : Loop :=
  mkLoop (self st) (max_num_retries st) msg (header st) (key st) (posted st).

(** [max_num_retries += 1], the last statement of the loop body. *)
Definition consume_retry (st : Loop) : Loop :=
  mkLoop (self st) (max_num_retries st + 1) (errmsg st) (header st) (key st)
         (posted st).

Definition count_post (st : Loop) : Loop :=
  mkLoop (self st) (max_num_retries st) (errmsg st) (header st) (key st)
         (S (posted st)).

Section Dispatch.

(** [BaseAPILLM] assigns [self.template_parser]; its file is not part of
    this development, and the renderer is a parameter. *)
Variable template_parser : BaseLLM.Dialog → result string.

(** [str.strip] of the Python library. *)
Variable strip : string → string.

(** The remote endpoint: the reply to the request posted after [posted]
    earlier ones, with the given headers and body. *)
Variable endpoint : nat → gmap string string → gmap string Value → Reply.

(** Lines 77-91: the first critical section of a pass. *)
Definition select_key (spins : nat) (st : Loop) : Pass :=
  if (size (invalid_keys (self st)) =? length (keys (self st)))%nat
  then Throw AllKeysInsufficientQuota st
  else
    match next_key spins (self st) with
    | None => Spinning st
    | Some (Failed e self') => Throw e (with_self st self')
    | Some (Selected self') =>
        let st := with_self st self' in
        match keys self' !! key_ctr self' with
        | None => Throw IndexError st
        | Some k =>
            let st := with_key st k in
            match header st with
            | None => Throw TypeError st
            | Some h =>
                Continue (with_header st (<["Authorization" := "Bearer " +:+ k]> h))
            end
        end
    end.

(** Lines 93-98: the second critical section of a pass. *)
Definition select_org (st : Loop) : Pass :=
  match next_org (self st) (default ∅ (header st)) with
  | (self', Raise e) => Throw e (with_self st self')
  | (self', Ok h) => Continue (with_header (with_self st self') h)
  end.

(** Lines 100-128: the request and the handlers.  The pause before the
    retry of a rate-limited request and the log records leave no trace in
    the state. *)
Definition post (data : gmap string Value) (st : Loop) : Pass :=
  let reply := endpoint (posted st) (default ∅ (header st)) data in
  let st := count_post st in
  match reply with
  | Completion content => Return (strip content) st
  | ConnectionError tb => Continue (with_errmsg st ("Got connection error " +:+ tb))
  | JSONDecodeError content =>
      Continue (with_errmsg st ("JsonDecode error, got " +:+ content))
  | ErrorReply None _ => Throw (KeyError "code") st
  | ErrorReply (Some code) error_str =>
      if String.eqb code "rate_limit_exceeded" then Continue st
      else if String.eqb code "insufficient_quota"
      then Continue (with_self st (add_invalid_key (self st) (key st)))
      else
        Continue (consume_retry
          (with_errmsg st ("Find error message in response: " +:+ error_str)))
  | NoChoices => Continue (consume_retry st)
  | OtherException error_str tb =>
      Continue (consume_retry
        (with_errmsg st (error_str +:+ String (ascii_of_nat 10) tb)))
  end.

(** One pass of the body of [while max_num_retries < self.retry]. *)
Definition pass (spins : nat) (data : gmap string Value) (st : Loop) : Pass :=
  match select_key spins st with
  | Continue st =>
      match select_org st with
      | Continue st => post data st
      | other => other
      end
  | other => other
  end.

(** The retry loop, for at most [fuel] passes of at most [spins] inner
    iterations each. *)
Fixpoint retry_loop (fuel spins : nat) (data : gmap string Value) (st : Loop)
  : Run :=
  if max_num_retries st <? retry (self st) then
    match fuel with
    | O => Running st
    | S fuel' =>
        match pass spins data st with
        | Continue st' => retry_loop fuel' spins data st'
        | Return s st' => Finished (Ok s) st'
        | Throw e st' => Finished (Raise e) st'
        | Spinning st' => Running st'
        end
    end
  else Finished (Raise (CallingOpenAIFailed (max_num_retries st) (errmsg st))) st.

(** [_chat(messages, **gen_params)]; [posted] counts the requests of
    earlier calls on the same endpoint. *)
Definition _chat (fuel spins : nat) (this : GPTAPI) (posted : nat)
    (messages : list BaseLLM.Turn) (gen_params : gmap string Value) : Run :=
  let st0 := mkLoop this 0 EmptyString None EmptyString posted in
  match template_parser (BaseLLM.DList messages) with
  | Raise e => Finished (Raise e) st0
  | Ok messages =>
      match generate_request_data (model_type this) messages gen_params
                                  (json_mode this) with
      | Raise e => Finished (Raise e) st0
      | Ok EmptyRequest => retry_loop fuel spins ∅ st0
      | Ok (Request header data) =>
          retry_loop fuel spins data (with_header st0 header)
      end
  end.

(** The argument of [chat]: one dialogue, recognised by its first element
    being a dictionary, or a list of dialogues. *)
Inductive ChatInputs : Type :=
  | OneDialog (first : BaseLLM.Message) (rest : list BaseLLM.Turn)
  | Dialogs (ds : list (list BaseLLM.Turn)).

Inductive ChatOutput : Type :=
  | OneReply (s : string)
  | Replies (l : list string).

(** The tasks given to the executor, run one after the other in the order
    of submission on the shared instance; each is [self._chat(messages)],
    with no generation parameter. *)
Fixpoint run_tasks (fuel spins : nat) (this : GPTAPI) (posted : nat)
    (ds : list (list BaseLLM.Turn)) : list Run :=
  match ds with
  | [] => []
  | messages :: rest =>
      let r := _chat fuel spins this posted messages ∅ in
      let st := match r with Finished _ st => st | Running st => st end in
      r :: run_tasks fuel spins (self st) (OpenAI.posted st) rest
  end.

(** [[task.result() for task in tasks]]: the results in the order of the
    tasks; [result()] raises again what its task raised. *)
Fixpoint task_results (tasks : list (result string)) : result (list string) :=
  match tasks with
  | [] => Ok []
  | task :: rest =>
      do r <- task ;
      do rs <- task_results rest ;
      Ok (r :: rs)
  end.

(** Leaving the [with] block of the executor waits for every task. *)
Fixpoint wait_all (runs : list Run) : option (list (result string)) :=
  match runs with
  | [] => Some []
  | Finished r _ :: rest => cons r <$> wait_all rest
  | Running _ :: _ => None
  end.

(** [chat(inputs)]; [None] when a task never finishes within the passes
    allowed. *)
Definition chat (fuel spins : nat) (this : GPTAPI) (posted : nat)
    (inputs : ChatInputs) : option (result ChatOutput) :=
  match inputs with
  | Dialogs [] => Some (Raise IndexError)
  | Dialogs ds =>
      tasks ← wait_all (run_tasks fuel spins this posted ds);
      Some (do ret <- task_results tasks ; Ok (Replies ret))
  | OneDialog first rest =>
      tasks ← wait_all (run_tasks fuel spins this posted
                                  [BaseLLM.TMsg first :: rest]);
      Some (do ret <- task_results tasks ;
            match ret with
            | r :: _ => Ok (OneReply r)
            | [] => Raise IndexError
            end)
  end.

End Dispatch.

(** *** States of the pool and outcomes of a call *)

(** The cursor after [self.key_ctr += 1] and the wrap to zero. *)
Definition advance (self : GPTAPI) : nat :=
  if (S (key_ctr self) =? length (keys self))%nat then O else S (key_ctr self).

(** The pool of a dispatcher in use: the cursor is inside the key list and
    only keys of the list were invalidated. *)
Definition pool_ok (self : GPTAPI) : Prop :=
  (key_ctr self < length (keys self))%nat ∧
  invalid_keys self ⊆ list_to_set (keys self).

Definition has_valid_key (self : GPTAPI) : Prop :=
  ∃ k, k ∈ keys self ∧ k ∉ invalid_keys self.

Definition orgs_ok (self : GPTAPI) : Prop :=
  orgs self = [] ∨ (org_ctr self < length (orgs self))%nat.

(** What a step of the loop body leaves alone. *)
Definition frame (st st' : Loop) : Prop :=
  retry (self st') = retry (self st) ∧
  keys (self st') = keys (self st) ∧
  invalid_keys (self st') = invalid_keys (self st) ∧
  orgs (self st') = orgs (self st) ∧
  max_num_retries st' = max_num_retries st ∧
  errmsg st' = errmsg st ∧
  posted st' = posted st.

(** The states in which a pass reaches the request. *)
Definition ready (st : Loop) : Prop :=
  is_Some (header st) ∧ pool_ok (self st) ∧ has_valid_key (self st) ∧
  orgs_ok (self st).

(** An error code of the provider that is neither of the two the loop
    singles out. *)
Definition other_code (code : string) : Prop :=
  code ≠ "rate_limit_exceeded"%string ∧ code ≠ "insufficient_quota"%string.

(** The diagnostic recorded for such an error. *)
Definition find_error (error_str : string) : string :=
  "Find error message in response: " +:+ error_str.

(** A call that ended with [res] after [n] requests in all, the retry
    counter at [retries]. *)
Definition finished_with (r : Run) (res : result string) (n : nat) (retries : Z)
  : Prop :=
  ∃ st, r = Finished res st ∧ posted st = n ∧ max_num_retries st = retries.

(** A call still in its loop after [n] requests in all, the retry counter
    at [retries]. *)
Definition running_with (r : Run) (n : nat) (retries : Z) : Prop :=
  ∃ st, r = Running st ∧ posted st = n ∧ max_num_retries st = retries.

(** The exception of the task that [chat] submits for a dialogue: that of
    rendering it, or else that of [generate_request_data], which looks for
    ['max_new_tokens'] among generation parameters of which [chat] passes
    none. *)
Definition task_exception (template_parser : BaseLLM.Dialog → result string)
    (messages : list BaseLLM.Turn) : exn :=
  match template_parser (BaseLLM.DList messages) with
  | Raise e => e
  | Ok _ => KeyError "max_new_tokens"
  end.

(** The state in which such a task ends: the instance as it was, and no
    request posted. *)
Definition untouched (this : GPTAPI) (posted : nat) : Loop :=
  mkLoop this 0 EmptyString None EmptyString posted.

End OpenAI.

(** ** The critical sections of [_chat] under interleaving

    Several workers run [_chat] on one instance.  This module follows the
    statements of lines 77-91 and 118-119 one at a time, a scheduler
    choosing which worker moves next.  Each statement counts as atomic; a
    finer grain only adds interleavings. *)

Module Locking.

(** The attributes shared by the workers, the locks that are currently
    held, and the allocator of lock objects: [Lock()] builds a new lock
    each time it is evaluated. *)
Record Shared : Type := mkShared {
  keys : list string;
  invalid_keys : gset string;
  key_ctr : nat;
  held : gset nat;
  next_lock : nat
}.

(** Where a worker stands.  The states from [AtCheck] to [AtExit] are
    inside the [with Lock():] block, holding the lock [l]. *)
Inductive Pc : Type :=
  | AtWith
  | AtCheck (l : nat)
  | AtAdvance (l : nat)
  | AtWrap (l : nat)
  | AtTest (l : nat)
  | AtTake (l : nat)
  | AtExit (l : nat) (key : string)
  | AtPost (key : string)
  | AtInvalidate (key : string)
  | Returned (key : string)
  | Raised (e : exn).

(** A worker: its position and the replies its requests will get, [true]
    for [insufficient_quota] and [false] for a completion. *)
Record Worker : Type := mkWorker {
  pc : Pc;
  quota_replies : list bool
}.

Definition in_section (w : Worker) : bool :=
  match pc w with
  | AtCheck _ | AtAdvance _ | AtWrap _ | AtTest _ | AtTake _ | AtExit _ _ => true
  | _ => false
  end.

Definition at_pc (w : Worker) (p : Pc) : Worker := mkWorker p (quota_replies w).

Definition set_ctr (sh : Shared) (c : nat) : Shared :=
  mkShared (keys sh) (invalid_keys sh) c (held sh) (next_lock sh).

Definition acquire_new (sh : Shared) : Shared :=
  mkShared (keys sh) (invalid_keys sh) (key_ctr sh)
           ({[next_lock sh]} ∪ held sh) (S (next_lock sh)).

Definition release (sh : Shared) (l : nat) : Shared :=
  mkShared (keys sh) (invalid_keys sh) (key_ctr sh) (held sh ∖ {[l]})
           (next_lock sh).

Definition invalidate (sh : Shared) (key : string) : Shared :=
  mkShared (keys sh) ({[key]} ∪ invalid_keys sh) (key_ctr sh) (held sh)
           (next_lock sh).

(** One statement of a worker; [None] when the worker is blocked on a
    lock that is held, or has finished. *)
Definition step (w : Worker) (sh : Shared) : option (Worker * Shared) :=
  match pc w with
  | AtWith =>
      if bool_decide (next_lock sh ∈ held sh) then None
      else Some (at_pc w (AtCheck (next_lock sh)), acquire_new sh)
  | AtCheck l =>
      if (size (invalid_keys sh) =? length (keys sh))%nat
      then Some (at_pc w (Raised AllKeysInsufficientQuota), release sh l)
      else Some (at_pc w (AtAdvance l), sh)
  | AtAdvance l => Some (at_pc w (AtWrap l), set_ctr sh (S (key_ctr sh)))
  | AtWrap l =>
      if (key_ctr sh =? length (keys sh))%nat
      then Some (at_pc w (AtTest l), set_ctr sh O)
      else Some (at_pc w (AtTest l), sh)
  | AtTest l =>
      match keys sh !! key_ctr sh with
      | None => Some (at_pc w (Raised IndexError), release sh l)
      | Some k =>
          if bool_decide (k ∈ invalid_keys sh)
          then Some (at_pc w (AtAdvance l), sh)
          else Some (at_pc w (AtTake l), sh)
      end
  | AtTake l =>
      match keys sh !! key_ctr sh with
      | None => Some (at_pc w (Raised IndexError), release sh l)
      | Some k => Some (at_pc w (AtExit l k), sh)
      end
  | AtExit l k => Some (at_pc w (AtPost k), release sh l)
  | AtPost k =>
      match quota_replies w with
      | true :: rest => Some (mkWorker (AtInvalidate k) rest, sh)
      | false :: rest => Some (mkWorker (Returned k) rest, sh)
      | [] => Some (at_pc w (Returned k), sh)
      end
  | AtInvalidate k => Some (at_pc w AtWith, invalidate sh k)
  | Returned _ | Raised _ => None
  end.

(** The workers and what they share. *)
Record System : Type := mkSystem {
  workers : list Worker;
  shared : Shared
}.

(** The scheduler lets worker [i] execute one statement. *)
Definition schedule1 (sys : System) (i : nat) : option System :=
  w ← workers sys !! i;
  '(w', sh') ← step w (shared sys);
  Some (mkSystem (<[i := w']> (workers sys)) sh').

Fixpoint run (sys : System) (sched : list nat) : option System :=
  match sched with
  | [] => Some sys
  | i :: rest => sys' ← schedule1 sys i; run sys' rest
  end.

(** The positions of the workers. *)
Definition pcs (sys : System) : list Pc := pc <$> workers sys.

(** Every lock that is held was allocated before. *)
Definition locks_allocated (sh : Shared) : Prop :=
  ∀ l, l ∈ held sh → (l < next_lock sh)%nat.

End Locking.

(** ** The Python library functions used in concrete runs *)

Module PyLib.

(** A string stands for the Python string of which it is the UTF-8
    encoding. *)

Definition char (n : nat) : string := String (ascii_of_nat n) EmptyString.

Definition backslash : string := char 92.

Fixpoint has (c : ascii) (s : string) : bool :=
  match s with
  | EmptyString => false
  | String c' rest => Ascii.eqb c c' || has c rest
  end.

Definition hex_digit (n : N) : string :=
  String (ascii_of_N (if (n <? 10)%N then 48 + n else 87 + n)) EmptyString.

(** The last [width] digits of [n] in base 16. *)
Fixpoint hex (width : nat) (n : N) : string :=
  match width with
  | O => EmptyString
  | S width' => hex width' (n / 16)%N +:+ hex_digit (n mod 16)%N
  end.

(** How [repr] writes one ASCII character between the quotes [q]. *)
Definition escape (q c : ascii) : string :=
  let n := N_of_ascii c in
  if Ascii.eqb c q || (n =? 92)%N then backslash +:+ String c EmptyString
  else if (n =? 9)%N then backslash +:+ "t"
  else if (n =? 10)%N then backslash +:+ "n"
  else if (n =? 13)%N then backslash +:+ "r"
  else if (n <? 32)%N || (n =? 127)%N then backslash +:+ "x" +:+ hex 2 n
  else String c EmptyString.

(** How [ascii] writes the character of code point [n] that is not
    ASCII. *)
Definition escape_code_point (n : N) : string :=
  if (n <? 256)%N then backslash +:+ "x" +:+ hex 2 n
  else if (n <? 65536)%N then backslash +:+ "u" +:+ hex 4 n
  else backslash +:+ "U" +:+ hex 8 n.

(** The bits a byte of an encoded character carries after its mark. *)
Definition payload (mark : N) (c : ascii) : N := (N_of_ascii c - mark)%N.

(** The characters of a string as [repr] writes them.  With [all], every
    character that is not ASCII is escaped, as [ascii] does; without,
    they are kept, as [repr] does for those that are printable. *)
Fixpoint escaped (all : bool) (q : ascii) (s : string) : string :=
  match s with
  | EmptyString => EmptyString
  | String c0 rest0 =>
      let n0 := N_of_ascii c0 in
      if (n0 <? 128)%N then escape q c0 +:+ escaped all q rest0
      else if negb all then String c0 (escaped all q rest0)
      else if (n0 <? 224)%N then
        match rest0 with
        | String c1 rest1 =>
            escape_code_point (payload 192 c0 * 64 + payload 128 c1)%N
              +:+ escaped all q rest1
        | _ => escape_code_point n0 +:+ escaped all q rest0
        end
      else if (n0 <? 240)%N then
        match rest0 with
        | String c1 (String c2 rest2) =>
            escape_code_point
              (payload 224 c0 * 4096 + payload 128 c1 * 64 + payload 128 c2)%N
              +:+ escaped all q rest2
        | _ => escape_code_point n0 +:+ escaped all q rest0
        end
      else
        match rest0 with
        | String c1 (String c2 (String c3 rest3)) =>
            escape_code_point
              (payload 240 c0 * 262144 + payload 128 c1 * 4096
               + payload 128 c2 * 64 + payload 128 c3)%N
              +:+ escaped all q rest3
        | _ => escape_code_point n0 +:+ escaped all q rest0
        end
  end.

(** [repr(s)] and [ascii(s)]: double quotes are chosen when the string has
    a single quote and no double quote. *)
Definition repr_with (all : bool) (s : string) : string :=
  let q := if has (ascii_of_nat 39) s && negb (has (ascii_of_nat 34) s)
           then ascii_of_nat 34 else ascii_of_nat 39 in
  String q (escaped all q s) +:+ String q EmptyString.

Definition repr : string → string := repr_with false.

(** The first part of a field name, up to the first dot or bracket, and
    whether something follows it. *)
Fixpoint first_part (field_name : string) : string * bool :=
  match field_name with
  | EmptyString => (EmptyString, false)
  | String c rest =>
      if Ascii.eqb c "." || Ascii.eqb c "[" then (EmptyString, true)
      else let (first, more) := first_part rest in (String c first, more)
  end.

(** The value of a string of decimal digits. *)
Fixpoint decimal (acc : N) (s : string) : option N :=
  match s with
  | EmptyString => Some acc
  | String c rest =>
      let n := N_of_ascii c in
      if (48 <=? n)%N && (n <=? 57)%N
      then decimal (acc * 10 + (n - 48))%N rest
      else None
  end.

(** The text of a replacement field whose name, conversion and format
    specification are given, in [template.format(name=name)]: no
    positional argument is there for an empty or numeric name, and no
    keyword other than [name].  An attribute or an index of the string and
    a format specification that is not empty are outside the fragment
    followed here, and answered with [ValueError]. *)
Definition field (field_name : string) (conversion : option ascii)
    (spec : string) (name : string) : result string :=
  let (first, more) := first_part field_name in
  match decimal 0 first with
  | Some index =>
      if (9223372036854775807 <? index)%N then Raise ValueError
      else Raise IndexError
  | None =>
      if negb (String.eqb first "name") then Raise (KeyError first)
      else if more then Raise ValueError
      else
        do value <-
          match conversion with
          | None => Ok name
          | Some c =>
              if Ascii.eqb c "r" then Ok (repr name)
              else if Ascii.eqb c "s" then Ok name
              else if Ascii.eqb c "a" then Ok (repr_with true name)
              else Raise ValueError
          end ;
        if String.eqb spec "" then Ok value else Raise ValueError
  end.

(** Where the scan of a template is: in the text, in a field name, inside
    the brackets of a field name, at the conversion character, after it,
    or in the format specification below [depth] more open braces. *)
Inductive Scan : Type :=
  | InText
  | InField (field_name : string)
  | InIndex (field_name : string)
  | AtConversion (field_name : string)
  | AfterConversion (field_name : string) (conversion : ascii)
  | InSpec (field_name : string) (conversion : option ascii) (depth : nat)
           (spec : string).

Definition snoc (s : string) (c : ascii) : string := s +:+ String c EmptyString.

Definition followed_by (value rest : result string) : result string :=
  do v <- value ; do r <- rest ; Ok (v +:+ r).

Fixpoint scan (at_ : Scan) (template name : string) : result string :=
  match template with
  | EmptyString =>
      match at_ with
      | InText => Ok EmptyString
      | _ => Raise ValueError
      end
  | String c rest =>
      match at_ with
      | InText =>
          if Ascii.eqb c "{" then
            match rest with
            | String "{" rest' => followed_by (Ok "{") (scan InText rest' name)
            | _ => scan (InField EmptyString) rest name
            end
          else if Ascii.eqb c "}" then
            match rest with
            | String "}" rest' => followed_by (Ok "}") (scan InText rest' name)
            | _ => Raise ValueError
            end
          else followed_by (Ok (String c EmptyString)) (scan InText rest name)
      | InField f =>
          if Ascii.eqb c "{" then Raise ValueError
          else if Ascii.eqb c "}"
          then followed_by (field f None EmptyString name) (scan InText rest name)
          else if Ascii.eqb c "!" then scan (AtConversion f) rest name
          else if Ascii.eqb c ":" then scan (InSpec f None 0 EmptyString) rest name
          else if Ascii.eqb c "[" then scan (InIndex (snoc f c)) rest name
          else scan (InField (snoc f c)) rest name
      | InIndex f =>
          if Ascii.eqb c "]" then scan (InField (snoc f c)) rest name
          else scan (InIndex (snoc f c)) rest name
      | AtConversion f => scan (AfterConversion f c) rest name
      | AfterConversion f conversion =>
          if Ascii.eqb c "}"
          then followed_by (field f (Some conversion) EmptyString name)
                           (scan InText rest name)
          else if Ascii.eqb c ":"
          then scan (InSpec f (Some conversion) 0 EmptyString) rest name
          else Raise ValueError
      | InSpec f conversion depth spec =>
          if Ascii.eqb c "{" then scan (InSpec f conversion (S depth) (snoc spec c)) rest name
          else if Ascii.eqb c "}" then
            match depth with
            | O => followed_by (field f conversion spec name) (scan InText rest name)
            | S depth' => scan (InSpec f conversion depth' (snoc spec c)) rest name
            end
          else scan (InSpec f conversion depth (snoc spec c)) rest name
      end
  end.

(** [template.format(name=name)]. *)
Definition format_name (template name : string) : result string :=
  scan InText template name.

(** [str.endswith]. *)
Definition endswith (s suffix : string) : bool :=
  String.prefix (String.rev suffix) (String.rev s).

(** The characters for which [str.isspace] holds, by the bytes of their
    encoding: the ASCII ones, U+0085, U+00A0, U+1680, U+2000 to U+200A,
    U+2028, U+2029, U+202F, U+205F and U+3000. *)
Definition space_codes : list (list nat) :=
  [ [9]; [10]; [11]; [12]; [13]; [28]; [29]; [30]; [31]; [32];
    [194; 133]; [194; 160]; [225; 154; 128];
    [226; 128; 128]; [226; 128; 129]; [226; 128; 130]; [226; 128; 131];
    [226; 128; 132]; [226; 128; 133]; [226; 128; 134]; [226; 128; 135];
    [226; 128; 136]; [226; 128; 137]; [226; 128; 138];
    [226; 128; 168]; [226; 128; 169]; [226; 128; 175];
    [226; 129; 159]; [227; 128; 128] ]%nat.

Definition encoded (codes : list nat) : string :=
  string_of_list_ascii (ascii_of_nat <$> codes).

Definition spaces : list string := encoded <$> space_codes.

Definition reversed_spaces : list string := (fun l => encoded (reverse l)) <$> space_codes.

(** The string without the first of the [prefixes] it starts with. *)
Fixpoint without_prefix (prefixes : list string) (s : string) : option string :=
  match prefixes with
  | [] => None
  | p :: others =>
      if String.prefix p s
      then Some (String.substring (String.length p) (String.length s - String.length p) s)
      else without_prefix others s
  end.

(** Remove the [prefixes] at the start of the string, as long as there is
    one; [n] bounds the number of removals. *)
Fixpoint strip_prefixes (n : nat) (prefixes : list string) (s : string) : string :=
  match n with
  | O => s
  | S n' =>
      match without_prefix prefixes s with
      | Some rest => strip_prefixes n' prefixes rest
      | None => s
      end
  end.

(** [str.lstrip], [str.rstrip] and [str.strip] without argument. *)
Definition lstrip (s : string) : string :=
  strip_prefixes (String.length s) spaces s.

Definition rstrip (s : string) : string :=
  String.rev (strip_prefixes (String.length s) reversed_spaces (String.rev s)).

Definition strip (s : string) : string := rstrip (lstrip s).

End PyLib.

(** ** Concrete role tables, dialogues, pools and endpoints *)

Module Scenarios.

Import BaseLLM OpenAI.

Definition plain_role (r b e : string) (g : option bool) : RoleItem :=
  mkRole r (Some (BeginStr b)) (Some e) None g.

Definition turn (r c : string) : Turn := TMsg (mkMsg (Some r) (Some c) None).

(** The meta template of the design document's example. *)
Definition example_meta : list RoleItem :=
  [ plain_role "system" "<S>" "</S>" None;
    plain_role "user" "<U>" "</U>" None;
    plain_role "assistant" "<A>" "</A>" (Some true) ].

Definition example_parser : LMTemplateParser :=
  mkParser (Some example_meta)
    (<["assistant" := plain_role "assistant" "<A>" "</A>" (Some true)]>
      (<["user" := plain_role "user" "<U>" "</U>" None]>
        (<["system" := plain_role "system" "<S>" "</S>" None]> ∅))).

Definition duplicate_meta : list RoleItem :=
  [ plain_role "user" "<U>" "</U>" None; plain_role "user" "<V>" "</V>" None ].

(** A meta template whose only role falls back to a role that no entry
    defines. *)
Definition ghost_item : RoleItem :=
  mkRole "user" (Some (BeginStr "<U>")) (Some "</U>") (Some "ghost") None.

Definition dangling_meta : list RoleItem := [ghost_item].

(** A role table in which the role ['bot'] falls back to ['assistant'],
    and a ['bot'] turn. *)
Definition assistant_item : RoleItem := plain_role "assistant" "<A>" "</A>" None.

Definition bot_item : RoleItem := mkRole "bot" None None (Some "assistant") None.

Definition fallback_parser : LMTemplateParser :=
  mkParser (Some [assistant_item; bot_item])
    (<["bot" := bot_item]> (<["assistant" := assistant_item]> ∅)).

Definition bot_message : Message := mkMsg (Some "bot") (Some "x") None.

(** The renderer, the dialogue and the generation parameters of the
    dispatcher runs. *)
Definition renderer : Dialog → result string :=
  __call__ PyLib.format_name example_parser.

Definition user_says_y : list Turn := [turn "user" "y"].


Definition params : gmap string Value := {["max_new_tokens" := VInt 512]}.

(** A dispatcher just built: no invalidated key, the cursors at zero, no
    organization. *)
Definition api (model : string) (budget : Z) (pool : list string) : GPTAPI :=
  mkGPTAPI model budget false pool ∅ 0 [] 0.

(** An endpoint that gives every request the same reply. *)
Definition always (r : Reply)
  : nat → gmap string string → gmap string Value → Reply :=
  fun _ _ _ => r.

(** An endpoint that limits the rate of the first request and completes
    the second. *)
Definition limited_once
  : nat → gmap string string → gmap string Value → Reply :=
  fun n _ _ =>
    match n with
    | O => ErrorReply (Some "rate_limit_exceeded") "slow down"
    | _ => Completion " done "
    end.

Definition no_quota : Reply := ErrorReply (Some "insufficient_quota") "no quota".

(** The header and the body of the request for a rendered prompt under
    [params]. *)
Definition json_header : gmap string string :=
  {["content-type" := "application/json"]}.

Definition body_of (s : string) : gmap string Value :=
  request_body "gpt-4o-mini" s {["max_tokens" := VInt 512]} false.

(** The loop state after the first pass on the pool [["k"; "k"]], whose
    request was answered with [insufficient_quota]. *)
Definition after_first_pass : Loop :=
  mkLoop (mkGPTAPI "gpt-4o-mini" 2 false ["k"; "k"] {["k"]} 1 [] 0) 0 ""
         (Some (<["Authorization" := "Bearer k"]> json_header)) "k" 1.

Definition fresh_worker (replies : list bool) : Locking.Worker :=
  Locking.mkWorker Locking.AtWith replies.

(** Two workers on a pool of three keys, the cursor on the first. *)
Definition two_workers : Locking.System :=
  Locking.mkSystem [fresh_worker []; fresh_worker []]
                   (Locking.mkShared ["k0"; "k1"; "k2"] ∅ 0 ∅ 0).

(** Worker 0 runs up to the test of the key under the cursor; worker 1
    then runs through its whole section; worker 0 resumes. *)
Definition overtaking : list nat :=
  [0; 0; 0; 0; 0;  1; 1; 1; 1; 1; 1; 1;  0; 0]%nat.

(** Two workers on a pool of one key; the request of worker 1 will be
    answered with [insufficient_quota]. *)
Definition one_key : Locking.System :=
  Locking.mkSystem [fresh_worker []; fresh_worker [true]]
                   (Locking.mkShared ["k0"] ∅ 0 ∅ 0).

(** Worker 1 selects the key and posts; worker 0 tests the key; worker 1
    invalidates it; worker 0 takes it. *)
Definition late_invalidation : list nat :=
  [1; 1; 1; 1; 1; 1; 1; 1;  0; 0; 0; 0; 0;  1;  0; 0]%nat.

End Scenarios.

(** ** [Agent/actions/parser.py] *)

Module ActionParser.

#[local] Set Warnings "-register-all".

(** A value decoded by [json.loads], or passed as a dictionary. *)
Inductive Json : Type :=
  | JNull
  | JBool (b : bool)
  | JNumber (text : string)
  | JString (s : string)
  | JArray (items : list Json)
  | JObject (d : gmap string Json).

(** One entry of [api['parameters']]; the parsers read its name only. *)
Record Param : Type := mkParam {
  param_name : string;
  param_type : string
}.

(** The description of one function of an action. *)
Record Api : Type := mkApi {
  api_name : string;
  required : list string;
  parameters : list Param;
  parameter_description : option string
}.

(** [action.description]: a dictionary with an ['api_list'], or the
    description of one function. *)
Inductive Description : Type :=
  | ApiList (apis : list Api)
  | OneApi (api : Api).

(** The action a parser is built for; a description that is [None] or
    empty is [None]. *)
Record Action : Type := mkAction {
  name : string;
  description : option Description;
  is_toolkit : bool
}.

(** The two exceptions of the file, and those of the interpreter. *)
Inductive error : Type :=
  | ValueError_unknown_parameters (function : string) (unknown : gset string)
  | ParseError_invalid_json (text : string)
  | ParseError_unknown_arguments (unknown : gset string) (not_strings : bool)
  | ParseError_missing_required (missing : gset string)
  | Python (e : exn).

Inductive outcome (A : Type) : Type :=
  | Returns (a : A)
  | Fails (e : error).
Arguments Returns {A} a.
Arguments Fails {A} e.

(** The instance attributes of [BaseParser]. *)
Record BaseParser : Type := mkBaseParser {
  action : Action;
  _api2param : gmap string (list Param);
  _api2required : gmap string (list string)
}.

Definition names (ps : list Param) : gset string :=
  list_to_set (param_name <$> ps).

Definition with_parameter_description (text : string) (api : Api) : Api :=
  if String.eqb text "" then api
  else mkApi (api_name api) (required api) (parameters api) (Some text).

(** The body of the [for api in ...] loop of [__init__], on the two
    tables; it returns the description with its parameter description
    set. *)
Definition register (PARAMETER_DESCRIPTION : string) (act : Action) (api : Api)
    (tables : gmap string (list Param) * gmap string (list string))
  : outcome (Api * (gmap string (list Param) * gmap string (list string))) :=
  let fname :=
    if is_toolkit act then name act +:+ "." +:+ api_name api else api_name api in
  let required_parameters : gset string := list_to_set (required api) in
  let all_parameters := names (parameters api) in
  if bool_decide (required_parameters ⊆ all_parameters) then
    let key := if is_toolkit act then api_name api else "run"%string in
    Returns (with_parameter_description PARAMETER_DESCRIPTION api,
             (<[key := parameters api]> tables.1,
              <[key := required api]> tables.2))
  else Fails (ValueError_unknown_parameters fname
                (required_parameters ∖ all_parameters)).

Fixpoint register_all (PARAMETER_DESCRIPTION : string) (act : Action)
    (apis : list Api)
    (tables : gmap string (list Param) * gmap string (list string))
  : outcome (list Api * (gmap string (list Param) * gmap string (list string))) :=
  match apis with
  | [] => Returns ([], tables)
  | api :: rest =>
      match register PARAMETER_DESCRIPTION act api tables with
      | Fails e => Fails e
      | Returns (api', tables') =>
          match register_all PARAMETER_DESCRIPTION act rest tables' with
          | Fails e => Fails e
          | Returns (rest', tables'') => Returns (api' :: rest', tables'')
          end
      end
  end.

(** [BaseParser.__init__(action)]; [PARAMETER_DESCRIPTION] is the class
    attribute, empty for [BaseParser]. *)
Definition __init__ (PARAMETER_DESCRIPTION : string) (act : Action)
  : outcome BaseParser :=
  match description act with
  | None => Returns (mkBaseParser act ∅ ∅)
  | Some (ApiList apis) =>
      match register_all PARAMETER_DESCRIPTION act apis (∅, ∅) with
      | Fails e => Fails e
      | Returns (apis', (params, reqs)) =>
          Returns (mkBaseParser
                     (mkAction (name act) (Some (ApiList apis')) (is_toolkit act))
                     params reqs)
      end
  | Some (OneApi api) =>
      match register PARAMETER_DESCRIPTION act api (∅, ∅) with
      | Fails e => Fails e
      | Returns (api', (params, reqs)) =>
          Returns (mkBaseParser
                     (mkAction (name act) (Some (OneApi api')) (is_toolkit act))
                     params reqs)
      end
  end.

(** The class attribute of [JsonParser]. *)
Definition JSON_PARAMETER_DESCRIPTION : string :=
  "If you call this tool, you must pass arguments in the JSON format {key: value}, where the key is the parameter name.".

(** [BaseParser.parse_inputs(inputs, name)]: the input under the name of
    the first parameter. *)
Definition parse_inputs (self : BaseParser) (inputs : string) (name : string)
  : outcome (gmap string Json) :=
  match _api2param self !! name with
  | None => Fails (Python (KeyError name))
  | Some [] => Fails (Python IndexError)
  | Some (p :: _) => Returns {[param_name p := JString inputs]}
  end.

(** The argument of [JsonParser.parse_inputs]: [Union[str, dict]]. *)
Inductive Inputs : Type :=
  | InStr (s : string)
  | InDict (d : gmap string Json).

(** The one-character strings of a string: what iterating over it
    yields. *)
Fixpoint characters (s : string) : list string :=
  match s with
  | EmptyString => []
  | String c rest => String c EmptyString :: characters rest
  end.

(** [set(inputs)]: the strings of the set, and whether it has an element
    that is not a string.  Numbers, booleans and [None] are not iterable;
    a list or a dictionary inside a list is not hashable. *)
Definition hashable (j : Json) : bool :=
  match j with
  | JArray _ | JObject _ => false
  | _ => true
  end.

Definition string_of (j : Json) : option string :=
  match j with
  | JString s => Some s
  | _ => None
  end.

Definition key_set (inputs : Json) : outcome (gset string * bool) :=
  match inputs with
  | JObject d => Returns (dom d, false)
  | JString s => Returns (list_to_set (characters s), false)
  | JArray items =>
      if forallb hashable items
      then Returns (list_to_set (omap string_of items),
                    existsb (fun j => bool_decide (string_of j = None)) items)
      else Fails (Python TypeError)
  | _ => Fails (Python TypeError)
  end.

(** Lines 73-81 of [JsonParser.parse_inputs]. *)
Definition check_keys (self : BaseParser) (inputs : Json) (name : string)
  : outcome Json :=
  match key_set inputs with
  | Fails e => Fails e
  | Returns (input_keys, not_strings) =>
      match _api2param self !! name with
      | None => Fails (Python (KeyError name))
      | Some params =>
          let all_keys := names params in
          if negb (bool_decide (input_keys ⊆ all_keys) && negb not_strings)
          then Fails (ParseError_unknown_arguments (input_keys ∖ all_keys)
                                                   not_strings)
          else
            match _api2required self !! name with
            | None => Fails (Python (KeyError name))
            | Some req =>
                let required_keys : gset string := list_to_set req in
                if bool_decide (required_keys ⊆ input_keys)
                then Returns inputs
                else Fails (ParseError_missing_required
                              (required_keys ∖ input_keys))
            end
      end
  end.

Section Json.

(** The [re.search] of the fenced block: the text between the optional
    opening fence and the closing fence (the second group) when the
    pattern matches. *)
Variable fenced : string → option string.

(** [str.strip] and [json.loads]; the latter gives [None] when it raises
    [JSONDecodeError]. *)
Variable strip : string → string.
Variable loads : string → option Json.

(** [JsonParser.parse_inputs(inputs, name)]. *)
Definition json_parse_inputs (self : BaseParser) (inputs : Inputs)
    (name : string) : outcome Json :=
  match inputs with
  | InDict d => check_keys self (JObject d) name
  | InStr s =>
      let text := match fenced s with Some body => strip body | None => s end in
      match loads text with
      | None => Fails (ParseError_invalid_json text)
      | Some decoded => check_keys self decoded name
      end
  end.

End Json.

(** *** What the construction checks *)

(** The functions [__init__] goes through. *)
Definition apis_of (act : Action) : list Api :=
  match description act with
  | None => []
  | Some (ApiList apis) => apis
  | Some (OneApi api) => [api]
  end.

(** The required names of the function are names of its parameters. *)
Definition well_formed (api : Api) : Prop :=
  (list_to_set (required api) : gset string) ⊆ names (parameters api).

(** The key a function is registered under. *)
Definition key_of (act : Action) (api : Api) : string :=
  if is_toolkit act then api_name api else "run"%string.

(** Every registered name has its required names among its parameters. *)
Definition consistent (params : gmap string (list Param))
    (reqs : gmap string (list string)) : Prop :=
  ∀ name,
    match params !! name, reqs !! name with
    | Some ps, Some rs => (list_to_set rs : gset string) ⊆ names ps
    | None, None => True
    | _, _ => False
    end.

End ActionParser.

(** ** [Agent/actions/web_browser.py] *)

Module WebBrowser.

(** [needle in haystack] on strings. *)
Fixpoint contains (needle haystack : string) : bool :=
  String.prefix needle haystack ||
  match haystack with
  | EmptyString => false
  | String _ rest => contains needle rest
  end.

(** The slice [s[1:-1]]. *)
Definition drop_first (s : string) : string :=
  match s with
  | EmptyString => EmptyString
  | String _ rest => rest
  end.

Definition inner (s : string) : string :=
  String.rev (drop_first (String.rev (drop_first s))).

(** A value of the dictionary [_filter_results] returns. *)
Record Entry : Type := mkEntry {
  url : string;
  summ : string;
  title : string
}.

(** The attributes of [BaseSearch]; the default black list is [None]. *)
Record BaseSearch : Type := mkBaseSearch {
  topk : Z;
  black_list : option (list string)
}.

(** An element of the response of the search engine. *)
Record Item : Type := mkItem {
  href : option string;
  description : option string;
  body : option string;
  item_title : option string
}.

(** The black list of [DuckDuckGoSearch]. *)
Definition default_black_list : list string :=
  ["enoN"; "youtube.com"; "bilibili.com"; "researchgate.net"]%string.

Section Search.

(** [json.dumps(snippet, ensure_ascii=False)] of the Python library. *)
Variable json_dumps : string → string.

(** The condition of line 29, once the black list is known to be a
    list. *)
Definition allowed (bl : list string) (u : string) : bool :=
  forallb (fun domain => negb (contains domain u)) bl &&
  negb (PyLib.endswith u ".pdf").

(** The [for] loop of [_filter_results]; iterating over a black list that
    is [None] raises [TypeError]. *)
Fixpoint filter_loop (self : BaseSearch) (results : list (string * string * string))
    (count : nat) (filtered_results : gmap nat Entry) : result (gmap nat Entry) :=
  match results with
  | [] => Ok filtered_results
  | (u, snippet, t) :: rest =>
      match black_list self with
      | None => Raise TypeError
      | Some bl =>
          if allowed bl u then
            let filtered_results :=
              <[count := mkEntry u (inner (json_dumps snippet)) t]> filtered_results in
            let count := S count in
            if Z.of_nat count >=? topk self then Ok filtered_results
            else filter_loop self rest count filtered_results
          else filter_loop self rest count filtered_results
      end
  end.

Definition _filter_results (self : BaseSearch)
    (results : list (string * string * string)) : result (gmap nat Entry) :=
  filter_loop self results O ∅.

(** The entry made of a result. *)
Definition entry_of (r : string * string * string) : Entry :=
  mkEntry r.1.1 (inner (json_dumps r.1.2)) r.2.

(** The tuple built from one item of the response. *)
Definition raw_result (item : Item) : result (string * string * string) :=
  match href item with
  | None => Raise (KeyError "href")
  | Some h =>
      do snippet <- match description item with
                    | Some d => Ok d
                    | None => match body item with
                              | Some b => Ok b
                              | None => Raise (KeyError "body")
                              end
                    end ;
      match item_title item with
      | None => Raise (KeyError "title")
      | Some t => Ok (h, snippet, t)
      end
  end.

Fixpoint raw_results (response : list Item) : result (list (string * string * string)) :=
  match response with
  | [] => Ok []
  | item :: rest =>
      do r <- raw_result item ;
      do rs <- raw_results rest ;
      Ok (r :: rs)
  end.

Definition _parse_response (self : BaseSearch) (response : list Item)
  : result (gmap nat Entry) :=
  do raw <- raw_results response ;
  _filter_results self raw.

(** [_call_ddgs]: what the attempt of the given number gets from the
    search engine for the query. *)
Variable _call_ddgs : nat → string → result (list Item).

(** What the attempt of the given number ends with. *)
Definition attempt_result (self : BaseSearch) (query : string) (attempt : nat)
  : result (gmap nat Entry) :=
  do response <- _call_ddgs attempt query ;
  _parse_response self response.

(** The [for attempt in range(max_retry)] loop of [search], from the
    attempt [attempt] with [remaining] attempts left: the results, or
    [None] for the exception raised after the loop, and the number of
    calls made. *)
Fixpoint search_loop (self : BaseSearch) (query : string) (attempt remaining : nat)
  : option (gmap nat Entry) * nat :=
  match remaining with
  | O => (None, attempt)
  | S remaining' =>
      match (do response <- _call_ddgs attempt query ;
             _parse_response self response) with
      | Ok found => (Some found, S attempt)
      | Raise _ => search_loop self query (S attempt) remaining'
      end
  end.

Definition search (self : BaseSearch) (query : string) (max_retry : Z)
  : option (gmap nat Entry) * nat :=
  search_loop self query O (Z.to_nat max_retry).

End Search.

(** [re.sub(r'\n+', '\n', text)]: every run of line feeds becomes one. *)
Definition is_newline (c : ascii) : bool := Ascii.eqb c (ascii_of_nat 10).

Fixpoint collapse_newlines (text : string) : string :=
  match text with
  | EmptyString => EmptyString
  | String c rest =>
      match rest with
      | String c' _ =>
          if is_newline c && is_newline c' then collapse_newlines rest
          else String c (collapse_newlines rest)
      | EmptyString => String c EmptyString
      end
  end.

Section Fetch.

(** [requests.get] followed by [raise_for_status]: the content, or the
    text of the [RequestException]. *)
Variable get : string → Z → string + string.

(** [BeautifulSoup(html, 'html.parser').get_text()]. *)
Variable get_text : string → string.

(** [ContentFetcher.fetch(url)], for the fetcher of the given timeout. *)
Definition fetch (timeout : Z) (u : string) : bool * string :=
  match get u timeout with
  | inl e => (false, e)
  | inr html => (true, collapse_newlines (get_text html))
  end.

End Fetch.

(** *** What the filter keeps and what the text loses *)

(** The results that pass the condition of line 29. *)
Definition passing (bl : list string) (results : list (string * string * string))
  : list (string * string * string) :=
  filter (fun r => allowed bl r.1.1 = true) results.

(** The number of entries the loop stops at: [topk], but one at least. *)
Definition limit (self : BaseSearch) : nat := Z.to_nat (Z.max 1 (topk self)).

(** The dictionary whose keys [count], [count + 1], ... hold the entries
    of [kept], on top of [acc]. *)
Fixpoint numbered (count : nat) (kept : list Entry) (acc : gmap nat Entry)
  : gmap nat Entry :=
  match kept with
  | [] => acc
  | e :: rest => numbered (S count) rest (<[count := e]> acc)
  end.

(** The snippet of an item: its description, else its body. *)
Definition snippet_of (item : Item) : option string :=
  match description item with
  | Some d => Some d
  | None => body item
  end.

(** [r] is the tuple of the item. *)
Definition tuple_of (item : Item) (r : string * string * string) : Prop :=
  href item = Some r.1.1 ∧ snippet_of item = Some r.1.2 ∧
  item_title item = Some r.2.

(** Whether a text has two line feeds in a row. *)
Fixpoint adjacent_newlines (text : string) : bool :=
  match text with
  | String c (String c' _ as rest) =>
      (is_newline c && is_newline c') || adjacent_newlines rest
  | _ => false
  end.

(** The characters of a text that are not line feeds. *)
Definition not_newline (text : string) : list ascii :=
  filter (fun c => is_newline c = false) (list_ascii_of_string text).

End WebBrowser.

(** ** The class [BaseLLM] of [Agent/llms/base_llm.py] *)

Module BaseLLMClass.

Import BaseLLM.

(** The argument [stop_words]: [None], a string or a list. *)
Inductive StopWords : Type :=
  | NoStopWords
  | StopWord (s : string)
  | StopWordList (l : list string).

(** The dictionary [self.gen_params]. *)
Record GenParams : Type := mkGenParams {
  max_new_tokens : Z;
  top_p : Q;
  top_k : Q;
  temperature : Q;
  repetition_penalty : Q;
  stop_words : option (list string)
}.

Record BaseLLM : Type := mkBaseLLM {
  path : string;
  tokenizer_only : bool;
  template_parser : LMTemplateParser;
  eos_token_id : option Z;
  gen_params : GenParams
}.

(** [BaseLLM.__init__]; a meta template is a list, in which the string
    ['eos_token_id'] is not found. *)
Definition __init__ (path : string) (tokenizer_only : bool)
    (meta_template : option (list RoleItem))
    (max_new_tokens : Z) (top_p top_k temperature repetition_penalty : Q)
    (stop_words : StopWords) : result BaseLLM :=
  do parser <- BaseLLM.__init__ meta_template ;
  let stop_words :=
    match stop_words with
    | NoStopWords => None
    | StopWord s => Some [s]
    | StopWordList l => Some l
    end in
  Ok (mkBaseLLM path tokenizer_only parser None
        (mkGenParams max_new_tokens top_p top_k temperature repetition_penalty
                     stop_words)).

(** The argument of [chat]: one dialogue or a list of dialogues, told
    apart by the type of the first element. *)
Inductive ChatInputs : Type :=
  | Turns (dialog : list Turn)
  | Dialogs (dialogs : list (list Turn)).

(** What [chat] passes to [generate]. *)
Inductive Prompts : Type :=
  | OnePrompt (s : string)
  | ManyPrompts (l : list string).

Section Chat.

Variable str_format : string → string → result string.

(** The method [generate] of the subclass, the keyword arguments of the
    call and what it returns. *)
Variables (Kwargs Output : Type).
Variable generate : Prompts → Kwargs → result Output.

(** The loop of [chat] that renders each dialogue of a batch. *)
Fixpoint render_all (self : BaseLLM) (dialogs : list (list Turn))
  : result (list string) :=
  match dialogs with
  | [] => Ok []
  | msg :: rest =>
      do prompt <- __call__ str_format (template_parser self) (DList msg) ;
      do prompts <- render_all self rest ;
      Ok (prompt :: prompts)
  end.

Definition chat (self : BaseLLM) (inputs : ChatInputs) (kwargs : Kwargs)
  : result Output :=
  match inputs with
  | Turns [] | Dialogs [] => Raise IndexError
  | Dialogs dialogs =>
      do _inputs <- render_all self dialogs ;
      generate (ManyPrompts _inputs) kwargs
  | Turns dialog =>
      do _inputs <- __call__ str_format (template_parser self) (DList dialog) ;
      generate (OnePrompt _inputs) kwargs
  end.

End Chat.

End BaseLLMClass.

(** ** States of a call of the dispatcher *)

Module OpenAIStates.

Import OpenAI.

(** How the loop state may change along a call: the configuration is
    fixed, invalidated keys stay invalidated, requests and retries are
    only counted up, and a pool in order stays in order. *)
Definition evolves (st st' : Loop) : Prop :=
  keys (self st') = keys (self st) ∧
  retry (self st') = retry (self st) ∧
  orgs (self st') = orgs (self st) ∧
  invalid_keys (self st) ⊆ invalid_keys (self st') ∧
  (posted st ≤ posted st')%nat ∧
  max_num_retries st ≤ max_num_retries st' ∧
  (pool_ok (self st) → pool_ok (self st')).

(** The state a pass or a call ends in. *)
Definition pass_state (p : Pass) : Loop :=
  match p with
  | Continue st | Return _ st | Throw _ st | Spinning st => st
  end.

Definition run_state (r : Run) : Loop :=
  match r with
  | Finished _ st | Running st => st
  end.

(** The keys of the list that are not invalidated. *)
Definition valid_keys (this : GPTAPI) : gset string :=
  list_to_set (keys this) ∖ invalid_keys this.

(** The generation parameters after the token limit is set and the two
    renamings are done. *)
Definition renamed (limit : Z) (gen_params : gmap string Value)
  : gmap string Value :=
  rename_key "repetition_penalty" "frequency_penalty"
    (rename_key "stop_words" "stop"
       (<["max_tokens" := VInt (Z.min limit 4096)]>
          (delete "max_new_tokens" gen_params))).

End OpenAIStates.

(** ** Concrete actions, searches and calls *)

Module MoreScenarios.

Import Scenarios.

(** A role table with the user's role only. *)
Definition user_only_parser : BaseLLM.LMTemplateParser :=
  BaseLLM.mkParser (Some [plain_role "user" "<U>" "</U>" None])
    {["user" := plain_role "user" "<U>" "</U>" None]}.

Definition named_turn (r c n : string) : BaseLLM.Turn :=
  BaseLLM.TMsg (BaseLLM.mkMsg (Some r) (Some c) (Some n)).

(** The loop state of a call that is about to start its first pass on two
    keys. *)
Definition first_pass_state : OpenAI.Loop :=
  OpenAI.mkLoop (api "gpt-4o-mini" 2 ["k0"; "k1"]) 0 "" (Some json_header) "" 0.

(** The state its key selection ends in. *)
Definition selected_state : OpenAI.Loop :=
  OpenAIStates.pass_state (OpenAI.select_key 2 first_pass_state).

(** An endpoint that always reports an error of the server, and the state
    in which a call with a budget of two gives up on it. *)
Definition server_error : OpenAI.Reply :=
  OpenAI.ErrorReply (Some "server_error") "boom".

Definition gave_up_state : OpenAI.Loop :=
  OpenAIStates.run_state
    (OpenAI._chat renderer PyLib.strip (always server_error) 2 2
       (api "gpt-4o-mini" 2 ["k0"; "k1"]) 0 user_says_y params).

Definition no_tokens : gmap string OpenAI.Value :=
  {["max_new_tokens" := OpenAI.VInt 0]}.

Definition long_answer : gmap string OpenAI.Value :=
  <["max_new_tokens" := OpenAI.VInt 8000]>
    (<["stop_words" := OpenAI.VList ["END"]]>
       (<["repetition_penalty" := OpenAI.VInt 1]>
          {["top_k" := OpenAI.VInt 40]})).

(** An action with one function, [city] required and [unit] optional,
    and the parser [JsonParser] builds for it. *)
Definition weather_api : ActionParser.Api :=
  ActionParser.mkApi "weather" ["city"]
    [ActionParser.mkParam "city" "STRING"; ActionParser.mkParam "unit" "STRING"]
    None.

Definition forecast_api : ActionParser.Api :=
  ActionParser.mkApi "forecast" ["day"] [ActionParser.mkParam "day" "STRING"] None.

Definition weather_action : ActionParser.Action :=
  ActionParser.mkAction "Weather" (Some (ActionParser.OneApi weather_api)) false.

Definition two_functions_action : ActionParser.Action :=
  ActionParser.mkAction "Weather"
    (Some (ActionParser.ApiList [weather_api; forecast_api])) false.

Definition weather_parser : ActionParser.BaseParser :=
  ActionParser.mkBaseParser
    (ActionParser.mkAction "Weather"
       (Some (ActionParser.OneApi
                (ActionParser.with_parameter_description
                   ActionParser.JSON_PARAMETER_DESCRIPTION weather_api)))
       false)
    {["run" := ActionParser.parameters weather_api]}
    {["run" := ActionParser.required weather_api]}.

Definition city_only : gmap string ActionParser.Json :=
  {["city" := ActionParser.JString "Paris"]}.

(** A fence search that never matches and a decoder that knows one
    text. *)
Definition no_fence : string → option string := fun _ => None.

Definition double_quote : string := String (ascii_of_nat 34) EmptyString.

Definition city_list_text : string :=
  "[" +:+ double_quote +:+ "city" +:+ double_quote +:+ "]".

Definition one_text_loads (s : string) : option ActionParser.Json :=
  if String.eqb s city_list_text
  then Some (ActionParser.JArray [ActionParser.JString "city"])
  else None.

(** [json.dumps] on the strings that need no escape. *)
Definition quoted (s : string) : string := double_quote +:+ s +:+ double_quote.

(** A search that keeps two results, and five results of a search engine. *)
Definition top_two : WebBrowser.BaseSearch :=
  WebBrowser.mkBaseSearch 2 (Some WebBrowser.default_black_list).

Definition top_none : WebBrowser.BaseSearch :=
  WebBrowser.mkBaseSearch 0 (Some WebBrowser.default_black_list).

Definition no_black_list : WebBrowser.BaseSearch :=
  WebBrowser.mkBaseSearch 3 None.

Definition five_results : list (string * string * string) :=
  [ ("https://www.youtube.com/watch", "a video", "Video");
    ("https://a.org/paper.pdf", "a paper", "Paper");
    ("https://a.org/x", "first", "A");
    ("https://b.org/y", "second", "B");
    ("https://c.org/z", "third", "C") ]%string.

Definition first_two : gmap nat WebBrowser.Entry :=
  <[1%nat := WebBrowser.mkEntry "https://b.org/y" "second" "B"]>
    {[0%nat := WebBrowser.mkEntry "https://a.org/x" "first" "A"]}.

Definition one_item : list WebBrowser.Item :=
  [WebBrowser.mkItem (Some "https://a.org/x") None (Some "first") (Some "A")].

Definition one_found : gmap nat WebBrowser.Entry :=
  {[0%nat := WebBrowser.mkEntry "https://a.org/x" "first" "A"]}.

(** A search engine that is down, and one that answers the second call. *)
Definition engine_down : nat → string → result (list WebBrowser.Item) :=
  fun _ _ => Raise IndexError.

Definition engine_late : nat → string → result (list WebBrowser.Item) :=
  fun attempt _ =>
    match attempt with
    | O => Raise IndexError
    | _ => Ok one_item
    end.

End MoreScenarios.

(** * Properties *)

(** ** The template renderer *)

Module BaseLLMFacts.

Import BaseLLM PyLib Scenarios.

Lemma init_roles_dup items : ∀ acc,
  (∃ it, it ∈ items ∧ is_Some (acc !! role it)) ∨ ¬ NoDup (role <$> items) →
  init_roles items acc = Raise AssertionError.
Proof.
  induction items as [|item rest IH]; intros acc H; simpl.
  - destruct H as [(it & Hin & _)|H]; [by apply elem_of_nil in Hin|].
    exfalso. apply H. constructor.
  - destruct (acc !! role item) as [old|] eqn:Hacc; [done|].
    apply IH. destruct H as [(it & Hin & Hsome)|H].
    + apply elem_of_cons in Hin as [->|Hin].
      * rewrite Hacc in Hsome. by destruct Hsome.
      * left. exists it. split; [done|].
        destruct (decide (role item = role it)) as [Heq|Hne].
        -- rewrite <- Heq, lookup_insert_eq. eauto.
        -- by rewrite lookup_insert_ne.
    + destruct (decide (role item ∈ role <$> rest)) as [Hin|Hnin].
      * left. apply list_elem_of_fmap in Hin as (it & Heq & Hin).
        exists it. split; [done|]. rewrite <- Heq, lookup_insert_eq. eauto.
      * right. intros Hnd. apply H. simpl. by constructor.
Qed.

Lemma init_roles_nodup items : ∀ acc,
  NoDup (role <$> items) →
  (∀ it, it ∈ items → acc !! role it = None) →
  ∃ table, init_roles items acc = Ok table ∧
    (∀ it, it ∈ items → table !! role it = Some it) ∧
    (∀ r, r ∉ role <$> items → table !! r = acc !! r).
Proof.
  induction items as [|item rest IH]; intros acc Hnd Hfresh; simpl.
  - exists acc. split; [done|]. split; [|done].
    intros it Hin. by apply elem_of_nil in Hin.
  - rewrite (Hfresh item) by left.
    apply NoDup_cons in Hnd as [Hnin Hnd].
    destruct (IH (<[role item := item]> acc) Hnd) as (table & Hok & Hin & Hout).
    { intros it Hit. rewrite lookup_insert_ne; [apply Hfresh; by right|].
      intros Heq. apply Hnin. rewrite Heq. apply list_elem_of_fmap. eauto. }
    exists table. split; [done|]. split.
    + intros it Hit. apply elem_of_cons in Hit as [->|Hit]; [|by apply Hin].
      rewrite Hout by done. apply lookup_insert_eq.
    + intros r Hr. apply not_elem_of_cons in Hr as [Hne Hr].
      rewrite Hout by done. by rewrite lookup_insert_ne.
Qed.

Example example_parser_built : __init__ (Some example_meta) = Ok example_parser.
Proof. reflexivity. Qed.

Example format_known_name : format_name "<{name}>: {{}}" "bob" = Ok "<bob>: {}"%string.
Proof. reflexivity. Qed.

Example format_other_fields :
  format_name "{}" "bob" = Raise IndexError ∧
  format_name "{other}" "bob" = Raise (KeyError "other") ∧
  format_name "{name!r} and {name!s}" "bob" = Ok "'bob' and bob"%string.
Proof. repeat split. Qed.

Section RenderFacts.
Variable str_format : string → string → result string.

#[local] Arguments _prompt2str : simpl never.

Lemma render_loop_app self n items1 : ∀ items2 index prompt,
  render_loop str_format self n index (items1 ++ items2) prompt =
  do p <- render_loop str_format self n index items1 prompt ;
  render_loop str_format self n (index + length items1) items2 p.
Proof.
  induction items1 as [|item rest IH]; intros items2 index prompt; simpl.
  - by rewrite Nat.add_0_r.
  - destruct item as [s|m].
    + rewrite IH.
      replace (S index + length rest)%nat with (index + S (length rest))%nat by lia.
      done.
    + destruct (_prompt2str _ _ _ _) as [new_str|e]; simpl; [|done].
      rewrite IH.
      replace (S index + length rest)%nat with (index + S (length rest))%nat by lia.
      done.
Qed.

Lemma render_loop_raise self n m post :
  (∀ last, is_raise (_prompt2str str_format self (TMsg m) last) = true) →
  ∀ pre index prompt,
  is_raise (render_loop str_format self n index (pre ++ TMsg m :: post) prompt) = true.
Proof.
  intros Hm pre. induction pre as [|item rest IH]; intros index prompt; simpl.
  - specialize (Hm (Z.of_nat index =? Z.of_nat n - 1)).
    destruct (_prompt2str _ _ _ _); [discriminate Hm|done].
  - destruct item as [s|m']; [apply IH|].
    destruct (_prompt2str _ _ _ _) as [new_str|e]; simpl; [apply IH|done].
Qed.

Lemma last_index (pre : list Turn) (x : Turn) :
  (Z.of_nat (length pre) =? Z.of_nat (length (pre ++ [x])) - 1) = true.
Proof. rewrite length_app. simpl. apply Z.eqb_eq. lia. Qed.


Lemma call_last_turn self pre m p :
  truthy_list (meta_template self) = true →
  render_loop str_format self (length (pre ++ [TMsg m])) 0 pre "" = Ok p →
  __call__ str_format self (DList (pre ++ [TMsg m])) =
  do new_str <- _prompt2str str_format self (TMsg m) true ; Ok (p +:+ new_str).
Proof.
  intros Hmeta Hpre. unfold __call__. rewrite Hmeta, render_loop_app, Hpre.
  cbn [bind render_loop Nat.add]. rewrite last_index.
  by destruct (_prompt2str _ _ _ _).
Qed.

(** C7: a dialogue that is already a plain string is returned unchanged,
    whatever role table the renderer was built with. *)
Theorem call_plain_string (self : LMTemplateParser) (s : string) :
  __call__ str_format self (DStr s) = Ok s.
Proof. reflexivity. Qed.

(** C10: a renderer built with no meta template is built without error,
    and called on any list dialogue it returns nothing: the call ends in
    the unhandled [UnboundLocalError] of the accumulator [prompt]. *)
Theorem call_list_without_meta_template (items : list Turn) :
  ∃ self, __init__ None = Ok self ∧
          __call__ str_format self (DList items) = Raise UnboundLocalError.
Proof. eexists. split; reflexivity. Qed.

(** C8: when two entries of the meta template carry the same role name,
    the construction of the renderer fails on the uniqueness assertion. *)
Theorem init_rejects_duplicate_roles (meta : list RoleItem) (i j : nat)
    (a b : RoleItem) :
  i ≠ j → meta !! i = Some a → meta !! j = Some b → role a = role b →
  __init__ (Some meta) = Raise AssertionError.
Proof.
  intros Hij Ha Hb Hrole.
  assert (Hdup : ¬ NoDup (role <$> meta)).
  { intros Hnd. apply Hij. apply (NoDup_lookup _ i j (role a) Hnd).
    - by rewrite list_lookup_fmap, Ha.
    - by rewrite list_lookup_fmap, Hb, Hrole. }
  unfold __init__.
  destruct meta as [|item rest]; [by rewrite lookup_nil in Ha|].
  cbn [truthy_list default]. rewrite init_roles_dup; [done|]. by right.
Qed.

(** C4, amended: a meta template with pairwise distinct role names is
    accepted even when an entry names a fallback role that no entry
    defines; the dangling reference surfaces when a turn of that role is
    rendered, as an unhandled [TypeError] (named turn) or [AttributeError]
    (unnamed turn), and every dialogue containing such a turn fails. *)
Theorem dangling_fallback_surfaces_at_render (meta : list RoleItem)
    (item : RoleItem) (m : Message) :
  NoDup (role <$> meta) → item ∈ meta →
  truthy_str (fallback_role item) = true →
  get_str (fallback_role item) ∉ role <$> meta →
  msg_role m = Some (role item) →
  ∃ self, __init__ (Some meta) = Ok self ∧
    (∀ last, _prompt2str str_format self (TMsg m) last =
             Raise (match msg_name m with Some _ => TypeError | None => AttributeError end)) ∧
    (∀ pre post,
       is_raise (__call__ str_format self (DList (pre ++ TMsg m :: post))) = true).
Proof.
  intros Hnd Hin Hfb Hdangling Hrole.
  destruct (init_roles_nodup meta ∅ Hnd) as (table & Hok & Htable & Hout).
  { intros it _. apply lookup_empty. }
  assert (Hne : truthy_list (Some meta) = true).
  { destruct meta; [by apply elem_of_nil in Hin|done]. }
  exists (mkParser (Some meta) table).
  assert (Hturn : ∀ last,
    _prompt2str str_format (mkParser (Some meta) table) (TMsg m) last =
    Raise (match msg_name m with Some _ => TypeError | None => AttributeError end)).
  { intros last. unfold _prompt2str, merged_prompt. rewrite Hrole. simpl.
    rewrite (Htable item Hin), Hfb, (Hout _ Hdangling), lookup_empty. simpl.
    unfold _format_begin. by destruct (msg_name m). }
  split; [|split; [done|]].
  - unfold __init__. rewrite Hne. simpl. by rewrite Hok.
  - intros pre post. unfold __call__. cbn [meta_template]. rewrite Hne.
    apply render_loop_raise. intros last. by rewrite Hturn.
Qed.

(** C5: when the last turn of a dialogue resolves to a configuration
    flagged [generate], it is rendered as its begin phrase followed by its
    content, with no end suffix, and nothing is appended after it. *)
Theorem generate_turn_left_open (self : LMTemplateParser) (pre : list Turn)
    (m : Message) (cfg : RoleItem) (b p : string) :
  truthy_list (meta_template self) = true →
  render_loop str_format self (length (pre ++ [TMsg m])) 0 pre "" = Ok p →
  merged_prompt self m = Ok (Some cfg) →
  truthy_flag (generate cfg) = true →
  _format_begin str_format (Some cfg) m = Ok b →
  _prompt2str str_format self (TMsg m) true = Ok (b +:+ get_str (msg_content m)) ∧
  __call__ str_format self (DList (pre ++ [TMsg m])) =
    Ok (p +:+ b +:+ get_str (msg_content m)).
Proof.
  intros Hmeta Hpre Hcfg Hgen Hbegin.
  assert (Hturn : _prompt2str str_format self (TMsg m) true =
                  Ok (b +:+ get_str (msg_content m))).
  { unfold _prompt2str. rewrite Hcfg. simpl. rewrite Hbegin. simpl.
    by rewrite Hgen. }
  split; [done|]. by rewrite (call_last_turn _ _ _ p), Hturn.
Qed.

(** C6, amended: when the configuration the last turn resolves to (after
    the one-hop fallback) is not flagged [generate] and its role is not
    ['assistant'], the output ends with the assistant role's begin phrase,
    computed with no name, appended after that turn's own begin, content
    and end. *)
Theorem last_turn_primes_assistant (self : LMTemplateParser) (pre : list Turn)
    (m : Message) (cfg assistant : RoleItem) (b ab p : string) :
  truthy_list (meta_template self) = true →
  render_loop str_format self (length (pre ++ [TMsg m])) 0 pre "" = Ok p →
  merged_prompt self m = Ok (Some cfg) →
  truthy_flag (generate cfg) = false →
  role cfg ≠ "assistant"%string →
  _format_begin str_format (Some cfg) m = Ok b →
  roles self !! "assistant"%string = Some assistant →
  _format_begin str_format (Some assistant) empty_message = Ok ab →
  __call__ str_format self (DList (pre ++ [TMsg m])) =
    Ok (p +:+ (b +:+ get_str (msg_content m) +:+ get_str (end_ cfg)) +:+ ab).
Proof.
  intros Hmeta Hpre Hcfg Hgen Hrole Hbegin Hassistant Hab.
  rewrite (call_last_turn _ _ _ p) by done.
  unfold _prompt2str. rewrite Hcfg. simpl. rewrite Hbegin. simpl.
  rewrite Hgen. apply String.eqb_neq in Hrole. rewrite Hrole. simpl.
  rewrite Hassistant, Hab. done.
Qed.

End RenderFacts.

Lemma init_rejects_duplicate_roles_witness :
  __init__ (Some duplicate_meta) = Raise AssertionError.
Proof.
  apply (init_rejects_duplicate_roles duplicate_meta 0 1
           (plain_role "user" "<U>" "</U>" None)
           (plain_role "user" "<V>" "</V>" None)).
  - discriminate.
  - reflexivity.
  - reflexivity.
  - reflexivity.
Defined.

(** C4, counterexample: the construction accepts a meta template whose
    declared fallback role names no role of the table. *)
Lemma dangling_fallback_accepted :
  fallback_role ghost_item = Some "ghost"%string ∧
  (∃ self, __init__ (Some dangling_meta) = Ok self ∧
           roles self !! "ghost"%string = None) ∧
  ¬ (∃ e, __init__ (Some dangling_meta) = Raise e).
Proof.
  split; [reflexivity|]. split.
  - eexists. split; reflexivity.
  - intros [e He]. discriminate He.
Qed.

Lemma dangling_fallback_surfaces_at_render_witness :
  ∃ self, __init__ (Some dangling_meta) = Ok self ∧
    (∀ last, _prompt2str format_name self (turn "user" "hi") last =
             Raise AttributeError) ∧
    (∀ pre post,
       is_raise (__call__ format_name self
                   (DList (pre ++ turn "user" "hi" :: post))) = true).
Proof.
  apply (dangling_fallback_surfaces_at_render format_name dangling_meta
           ghost_item (mkMsg (Some "user"%string) (Some "hi"%string) None)).
  - apply NoDup_singleton.
  - apply list_elem_of_here.
  - reflexivity.
  - vm_compute. intros H. apply list_elem_of_singleton in H. discriminate H.
  - reflexivity.
Defined.

Lemma generate_turn_left_open_witness :
  _prompt2str format_name example_parser (turn "assistant" "hi") true
    = Ok "<A>hi"%string ∧
  __call__ format_name example_parser (DList [turn "assistant" "hi"])
    = Ok "<A>hi"%string.
Proof.
  apply (generate_turn_left_open format_name example_parser []
           (mkMsg (Some "assistant"%string) (Some "hi"%string) None)
           (plain_role "assistant" "<A>" "</A>" (Some true)) "<A>" "").
  - reflexivity.
  - reflexivity.
  - reflexivity.
  - reflexivity.
  - reflexivity.
Defined.

Lemma last_turn_primes_assistant_witness :
  __call__ format_name example_parser
    (DList [turn "system" "x"; turn "user" "y"])
  = Ok "<S>x</S><U>y</U><A>"%string.
Proof.
  apply (last_turn_primes_assistant format_name example_parser
           [turn "system" "x"]
           (mkMsg (Some "user"%string) (Some "y"%string) None)
           (plain_role "user" "<U>" "</U>" None)
           (plain_role "assistant" "<A>" "</A>" (Some true))
           "<U>" "<A>" "<S>x</S>").
  - reflexivity.
  - reflexivity.
  - reflexivity.
  - reflexivity.
  - discriminate.
  - reflexivity.
  - reflexivity.
  - reflexivity.
Defined.

(** C6, counterexample: the last turn's role is ['bot'], not
    ['assistant'], and the configuration it resolves to is not flagged
    [generate]; yet the output is the turn's begin, content and end alone
    and does not end with the assistant's begin phrase. *)
Lemma fallback_to_assistant_not_primed :
  __init__ (Some [assistant_item; bot_item]) = Ok fallback_parser ∧
  msg_role bot_message = Some "bot"%string ∧
  merged_prompt fallback_parser bot_message = Ok (Some assistant_item) ∧
  truthy_flag (generate assistant_item) = false ∧
  _format_begin format_name (Some assistant_item) empty_message = Ok "<A>"%string ∧
  __call__ format_name fallback_parser (DList [TMsg bot_message])
    = Ok "<A>x</A>"%string ∧
  endswith "<A>x</A>" "<A>" = false.
Proof. repeat split; reflexivity. Qed.

End BaseLLMFacts.

(** ** The dispatcher *)

Module OpenAIFacts.

Import OpenAI PyLib Scenarios.

Lemma size_list_to_set_le (l : list string) :
  (size (list_to_set l : gset string) ≤ length l)%nat.
Proof.
  induction l as [|x l IH].
  - rewrite list_to_set_nil, size_empty. done.
  - rewrite list_to_set_cons, size_union_alt, size_singleton. cbn [length].
    assert (Hsub : (list_to_set l ∖ {[x]} : gset string) ⊆ list_to_set l)
      by apply subseteq_difference_l, reflexivity.
    apply subseteq_size in Hsub. lia.
Qed.

Lemma advance_mod self :
  (key_ctr self < length (keys self))%nat →
  advance self = ((key_ctr self + 1) mod length (keys self))%nat.
Proof.
  intros Hlt. unfold advance.
  destruct (Nat.eqb_spec (S (key_ctr self)) (length (keys self))) as [Heq|Hne].
  - replace (key_ctr self + 1)%nat with (length (keys self)) by lia.
    by rewrite Nat.Div0.mod_same.
  - rewrite Nat.mod_small; lia.
Qed.

Lemma advance_lt self :
  (key_ctr self < length (keys self))%nat →
  (advance self < length (keys self))%nat.
Proof.
  intros Hlt. unfold advance.
  destruct (Nat.eqb_spec (S (key_ctr self)) (length (keys self))); lia.
Qed.

Lemma next_key_step spins self :
  next_key (S spins) self =
  match keys self !! advance self with
  | None => Some (Failed IndexError (set_key_ctr self (advance self)))
  | Some key =>
      if bool_decide (key ∈ invalid_keys self)
      then next_key spins (set_key_ctr self (advance self))
      else Some (Selected (set_key_ctr self (advance self)))
  end.
Proof. reflexivity. Qed.

(** Whatever the inner loop returns is a cursor on a key that is not
    invalidated; nothing but the cursor changes. *)
Lemma next_key_sound spins : ∀ self self',
  next_key spins self = Some (Selected self') →
  ∃ c k, self' = set_key_ctr self c ∧ keys self !! c = Some k ∧
         k ∉ invalid_keys self.
Proof.
  induction spins as [|spins IH]; intros self self' H; [discriminate H|].
  rewrite next_key_step in H.
  destruct (keys self !! advance self) as [key|] eqn:Hkey; [|discriminate H].
  case_bool_decide as Hinv.
  - apply IH in H as (c & k & -> & Hk & Hvalid). exists c, k. eauto.
  - injection H as <-. exists (advance self), key. eauto.
Qed.

(** The lookup of the inner loop can only fail on its first pass, with
    the cursor outside the list. *)
Lemma next_key_failed spins : ∀ self e self',
  next_key spins self = Some (Failed e self') →
  e = IndexError ∧ self' = set_key_ctr self (advance self) ∧
  keys self !! advance self = None.
Proof.
  induction spins as [|spins IH]; intros self e self' H; [discriminate H|].
  rewrite next_key_step in H.
  destruct (keys self !! advance self) as [key|] eqn:Hkey.
  - case_bool_decide as Hinv; [|discriminate H].
    apply IH in H as (_ & _ & Hnone). exfalso.
    apply lookup_lt_Some in Hkey.
    pose proof (advance_lt (set_key_ctr self (advance self)) Hkey) as Hlt.
    apply lookup_ge_None in Hnone. simpl in *. lia.
  - injection H as <- <-. done.
Qed.

Lemma next_key_reaches d : ∀ spins self k,
  (d < spins)%nat →
  (key_ctr self < length (keys self))%nat →
  keys self !! ((key_ctr self + 1 + d) mod length (keys self))%nat = Some k →
  k ∉ invalid_keys self →
  ∃ self', next_key spins self = Some (Selected self').
Proof.
  induction d as [|d IH]; intros spins self k Hspins Hctr Hk Hvalid;
    (destruct spins as [|spins]; [lia|]); rewrite next_key_step;
    pose proof (advance_lt self Hctr) as Hadv;
    destruct (lookup_lt_is_Some_2 (keys self) (advance self) Hadv) as [key Hkey];
    rewrite Hkey; case_bool_decide as Hinv; eauto.
  - rewrite Nat.add_0_r, <- advance_mod in Hk by done. congruence.
  - apply (IH spins (set_key_ctr self (advance self)) k); simpl; try done; [lia|].
    rewrite advance_mod by done.
    rewrite <- Nat.add_assoc, Nat.Div0.add_mod_idemp_l.
    rewrite <- Hk. f_equal; lia.
Qed.

(** With a cursor inside the list and a key left that is not invalidated,
    the inner loop ends within one turn of the list. *)
Lemma next_key_total spins self :
  (key_ctr self < length (keys self))%nat →
  has_valid_key self →
  (length (keys self) ≤ spins)%nat →
  ∃ self', next_key spins self = Some (Selected self').
Proof.
  intros Hctr (k & Hin & Hvalid) Hspins.
  apply list_elem_of_lookup_1 in Hin as [i Hi].
  pose proof (lookup_lt_Some _ _ _ Hi) as Hlt.
  set (n := length (keys self)) in *.
  apply (next_key_reaches ((i + n - key_ctr self - 1) mod n) spins self k);
    try done.
  - pose proof (Nat.mod_upper_bound (i + n - key_ctr self - 1) n). lia.
  - fold n. rewrite Nat.Div0.add_mod_idemp_r.
    replace (key_ctr self + 1 + (i + n - key_ctr self - 1))%nat
      with (i + 1 * n)%nat by lia.
    rewrite Nat.Div0.mod_add, Nat.mod_small; done.
Qed.

Lemma pool_not_exhausted self :
  pool_ok self → has_valid_key self →
  size (invalid_keys self) ≠ length (keys self).
Proof.
  intros [_ Hsub] (k & Hin & Hvalid).
  assert (Hstrict : invalid_keys self ⊂ list_to_set (keys self)).
  { split; [done|]. intros Hsup. apply Hvalid, Hsup, elem_of_list_to_set, Hin. }
  apply subset_size in Hstrict.
  pose proof (size_list_to_set_le (keys self)). lia.
Qed.

Lemma pool_exhausted self :
  NoDup (keys self) → pool_ok self → ¬ has_valid_key self →
  size (invalid_keys self) = length (keys self).
Proof.
  intros Hnd [_ Hsub] Hnone.
  rewrite <- (size_list_to_set (C := gset string)) by done. f_equal.
  apply set_eq. intros k. split; [apply Hsub|].
  intros Hin%elem_of_list_to_set.
  destruct (decide (k ∈ invalid_keys self)) as [|Hvalid]; [done|].
  exfalso. apply Hnone. by exists k.
Qed.

(** The handlers of one pass, by kind of reply: what happens to the retry
    counter, to the diagnostic and to the invalidated keys. *)
Lemma post_handlers (strip : string → string)
    (endpoint : nat → gmap string string → gmap string Value → Reply)
    (data : gmap string Value) (st : Loop) :
  ∃ st', posted st' = S (posted st) ∧ header st' = header st ∧
         key st' = key st ∧
  match endpoint (posted st) (default ∅ (header st)) data with
  | Completion content =>
      post strip endpoint data st = Return (strip content) st' ∧ self st' = self st
  | ConnectionError _ | JSONDecodeError _ =>
      post strip endpoint data st = Continue st' ∧ self st' = self st ∧
      max_num_retries st' = max_num_retries st
  | ErrorReply None _ =>
      post strip endpoint data st = Throw (KeyError "code") st' ∧ self st' = self st
  | ErrorReply (Some code) error_str =>
      post strip endpoint data st = Continue st' ∧
      if String.eqb code "rate_limit_exceeded"
      then max_num_retries st' = max_num_retries st ∧ errmsg st' = errmsg st ∧
           self st' = self st
      else if String.eqb code "insufficient_quota"
      then max_num_retries st' = max_num_retries st ∧ errmsg st' = errmsg st ∧
           self st' = add_invalid_key (self st) (key st)
      else max_num_retries st' = max_num_retries st + 1 ∧
           errmsg st' = find_error error_str ∧ self st' = self st
  | NoChoices =>
      post strip endpoint data st = Continue st' ∧ self st' = self st ∧
      max_num_retries st' = max_num_retries st + 1 ∧ errmsg st' = errmsg st
  | OtherException error_str tb =>
      post strip endpoint data st = Continue st' ∧ self st' = self st ∧
      max_num_retries st' = max_num_retries st + 1 ∧
      errmsg st' = error_str +:+ String (ascii_of_nat 10) tb
  end.
Proof.
  unfold post.
  destruct (endpoint _ _ _) as [tb|content|content|[code|] error_str| |error_str tb];
    try (eexists; split; [|split; [|split; [|split; [reflexivity|]]]]; done).
  destruct (String.eqb code "rate_limit_exceeded");
    [eexists; split; [|split; [|split; [|split; [reflexivity|]]]]; done|].
  destruct (String.eqb code "insufficient_quota");
    eexists; (split; [|split; [|split; [|split; [reflexivity|]]]]; done).
Qed.

Section DispatchFacts.
Variable template_parser : BaseLLM.Dialog → result string.
Variable strip : string → string.
Variable endpoint : nat → gmap string string → gmap string Value → Reply.

(** Partial correctness of the key selection, in any state: a pass that
    leaves the critical section holds a key of the list that is not in the
    invalidated set. *)
Lemma select_key_never_invalid spins st st' :
  select_key spins st = Continue st' →
  key st' ∈ keys (self st) ∧ (key st' ∉ invalid_keys (self st)) ∧
  invalid_keys (self st') = invalid_keys (self st).
Proof.
  unfold select_key. case_match; [discriminate|].
  destruct (next_key spins (self st)) as [[self'|e self']|] eqn:Hnext; try discriminate.
  apply next_key_sound in Hnext as (c & k & Hself & Hk & Hvalid).
  subst self'. simpl.
  rewrite Hk. destruct (header st); [|discriminate].
  intros [= <-]. simpl. split; [|done]. by eapply list_elem_of_lookup_2.
Qed.

(** Total correctness: while a key is left that is not invalidated, the
    critical section ends with such a key selected. *)
Lemma select_key_continue spins st :
  ready st → (length (keys (self st)) ≤ spins)%nat →
  ∃ st', select_key spins st = Continue st' ∧ frame st st' ∧ ready st' ∧
         key st' ∈ keys (self st) ∧ key st' ∉ invalid_keys (self st).
Proof.
  intros ([h Hh] & Hpool & Hvalid & Horgs) Hspins.
  pose proof (pool_not_exhausted _ Hpool Hvalid) as Hsize.
  destruct (next_key_total spins (self st)) as [self' Hnext];
    [apply Hpool|done|done|].
  pose proof Hnext as Hsound.
  apply next_key_sound in Hsound as (c & k & -> & Hk & Hk').
  assert (Hsel : select_key spins st = Continue
    (with_header (with_key (with_self st (set_key_ctr (self st) c)) k)
       (<["Authorization"%string := ("Bearer " +:+ k)%string]> h))).
  { unfold select_key. apply Nat.eqb_neq in Hsize. rewrite Hsize, Hnext.
    simpl. by rewrite Hk, Hh. }
  eexists. split; [exact Hsel|].
  destruct (select_key_never_invalid _ _ _ Hsel) as (Hin & Hnin & _).
  split; [done|]. split; [|done].
  split; [by eexists|]. split; [|done].
  split; [|apply Hpool]. simpl. by eapply lookup_lt_Some.
Qed.

Lemma select_org_continue st :
  ready st →
  ∃ st', select_org st = Continue st' ∧ frame st st' ∧ ready st' ∧
         key st' = key st.
Proof.
  intros ([h Hh] & Hpool & Hvalid & Horgs).
  unfold select_org, next_org.
  destruct (orgs (self st)) as [|org rest] eqn:Hlist.
  - eexists. split; [done|]. split; [done|]. split; [|done].
    split; [by eexists|]. split; [done|]. split; [done|]. by left.
  - destruct Horgs as [Hnil|Hlt]; [congruence|]. rewrite Hlist in Hlt.
    set (ctr := if (S (org_ctr (self st)) =? length (org :: rest))%nat
                then O else S (org_ctr (self st))).
    assert (Hctr : (ctr < length (org :: rest))%nat).
    { unfold ctr. destruct (Nat.eqb_spec (S (org_ctr (self st)))
                                          (length (org :: rest))); simpl in *; lia. }
    destruct (lookup_lt_is_Some_2 _ _ Hctr) as [o Ho].
    cbn [orgs set_org_ctr]. rewrite Hlist, Ho.
    eexists. split; [done|]. split; [done|]. split; [|done].
    split; [by eexists|]. split; [done|]. split; [done|]. right. simpl.
    by rewrite Hlist.
Qed.


Section AlwaysOtherError.
Variables (code error_str : string).
Hypothesis Hcode : other_code code.
Hypothesis Hendpoint : ∀ n h d, endpoint n h d = ErrorReply (Some code) error_str.

Lemma pass_other_error spins data st :
  ready st → (length (keys (self st)) ≤ spins)%nat →
  ∃ st', pass strip endpoint spins data st = Continue st' ∧ ready st' ∧
    retry (self st') = retry (self st) ∧
    keys (self st') = keys (self st) ∧
    max_num_retries st' = max_num_retries st + 1 ∧
    errmsg st' = find_error error_str ∧
    posted st' = S (posted st).
Proof.
  intros Hready Hspins. unfold pass.
  destruct (select_key_continue spins st Hready Hspins)
    as (st1 & Hkey & Hframe1 & Hready1 & _).
  destruct (select_org_continue st1 Hready1) as (st2 & Horg & Hframe2 & Hready2 & _).
  rewrite Hkey, Horg.
  destruct (post_handlers strip endpoint data st2) as (st3 & Hposted & Hheader & _ & Hpost).
  rewrite Hendpoint in Hpost.
  destruct Hcode as [Hrate%String.eqb_neq Hquota%String.eqb_neq].
  rewrite Hrate, Hquota in Hpost.
  destruct Hpost as (Hpost & Hretries & Herrmsg & Hself). rewrite Hpost.
  destruct Hframe1 as (? & ? & ? & ? & ? & ? & ?).
  destruct Hframe2 as (? & ? & ? & ? & ? & ? & ?).
  exists st3. split; [done|]. unfold ready. rewrite Hself, Hheader.
  repeat split; try apply Hready2; congruence.
Qed.

Lemma retry_loop_other_error spins data n : ∀ fuel st,
  ready st → (length (keys (self st)) ≤ spins)%nat →
  retry (self st) - max_num_retries st = Z.of_nat n → (n ≤ fuel)%nat →
  ∃ st', retry_loop strip endpoint fuel spins data st =
           Finished (Raise (CallingOpenAIFailed (retry (self st))
             (match n with O => errmsg st | S _ => find_error error_str end))) st' ∧
         posted st' = (posted st + n)%nat.
Proof.
  induction n as [|n IH]; intros fuel st Hready Hspins Hleft Hfuel.
  - exists st. assert (Heq : retry (self st) = max_num_retries st) by lia.
    split; [|lia]. destruct fuel; simpl; by rewrite Heq, Z.ltb_irrefl.
  - destruct fuel as [|fuel]; [lia|]. simpl.
    assert (Hlt : (max_num_retries st <? retry (self st)) = true)
      by (apply Z.ltb_lt; lia).
    rewrite Hlt.
    destruct (pass_other_error spins data st Hready Hspins)
      as (st1 & Hpass & Hready1 & Hretry & Hkeys & Hcount & Herrmsg & Hposted).
    rewrite Hpass.
    destruct (IH fuel st1) as (st' & Hloop & Hposted'); try done;
      [congruence|lia|lia|].
    exists st'. rewrite Hloop, Hretry, Herrmsg. split; [by destruct n|lia].
Qed.

End AlwaysOtherError.

(** C1, amended: a pass whose request is answered by a provider error
    other than a rate limit or an exhausted quota, by a response with
    neither completion nor error, or by an unexpected exception consumes
    exactly one unit of the retry budget; a rate-limited pass and a pass on
    a key without quota consume none, the latter adding the key to the
    invalidated set.  For a retry budget of [N] and an endpoint that always
    answers with such an other error, the call posts exactly [N] requests
    and then fails with the terminal error that carries the last
    diagnostic. *)
Theorem retry_budget_counts_other_errors (this : GPTAPI) (posted0 N fuel spins : nat)
    (messages : list BaseLLM.Turn) (gen_params : gmap string Value)
    (rendered : string) (hd : gmap string string) (data : gmap string Value)
    (code error_str : string) :
  template_parser (BaseLLM.DList messages) = Ok rendered →
  generate_request_data (model_type this) rendered gen_params (json_mode this)
    = Ok (Request hd data) →
  pool_ok this → has_valid_key this → orgs_ok this →
  retry this = Z.of_nat N →
  other_code code →
  (∀ n h d, endpoint n h d = ErrorReply (Some code) error_str) →
  (N ≤ fuel)%nat → (length (keys this) ≤ spins)%nat →
  (∀ ep body st, ∃ st', posted st' = S (posted st) ∧
     match ep (posted st) (default ∅ (header st)) body with
     | ErrorReply (Some c) e =>
         post strip ep body st = Continue st' ∧
         if String.eqb c "rate_limit_exceeded"
         then max_num_retries st' = max_num_retries st ∧
              invalid_keys (self st') = invalid_keys (self st)
         else if String.eqb c "insufficient_quota"
         then max_num_retries st' = max_num_retries st ∧
              invalid_keys (self st') = {[key st]} ∪ invalid_keys (self st)
         else max_num_retries st' = max_num_retries st + 1 ∧
              errmsg st' = find_error e
     | NoChoices =>
         post strip ep body st = Continue st' ∧
         max_num_retries st' = max_num_retries st + 1
     | OtherException e tb =>
         post strip ep body st = Continue st' ∧
         max_num_retries st' = max_num_retries st + 1 ∧
         errmsg st' = e +:+ String (ascii_of_nat 10) tb
     | _ => True
     end) ∧
  (∃ st, _chat template_parser strip endpoint fuel spins this posted0 messages
               gen_params
         = Finished (Raise (CallingOpenAIFailed (Z.of_nat N)
             (match N with O => EmptyString | S _ => find_error error_str end))) st
         ∧ posted st = (posted0 + N)%nat).
Proof.
  intros Hrender Hdata Hpool Hvalid Horgs Hretry Hcode Hendpoint Hfuel Hspins.
  split.
  - intros ep body st.
    destruct (post_handlers strip ep body st) as (st' & Hposted & _ & _ & Hpost).
    exists st'. split; [done|].
    destruct (ep _ _ _) as [tb|content|content|[c|] e| |e tb]; try done.
    + destruct Hpost as [Hpost Hcase]. split; [done|].
      destruct (String.eqb c "rate_limit_exceeded").
      { destruct Hcase as (? & ? & ->). done. }
      destruct (String.eqb c "insufficient_quota").
      { destruct Hcase as (? & ? & ->). done. }
      tauto.
    + tauto.
    + tauto.
  - unfold _chat. rewrite Hrender, Hdata.
    set (st0 := with_header _ hd).
    assert (Hready : ready st0) by (split; [by eexists|done]).
    assert (Hleft : retry (self st0) - max_num_retries st0 = Z.of_nat N)
      by (simpl; lia).
    destruct (retry_loop_other_error code error_str Hcode Hendpoint spins data N
                fuel st0 Hready Hspins Hleft Hfuel) as (st' & Hloop & Hposted).
    exists st'. rewrite Hloop. simpl. by rewrite Hretry.
Qed.

(** When every key is invalidated and the keys are pairwise distinct, the
    pass fails before any request with the error of exhausted keys. *)
Lemma select_key_exhausted spins st :
  NoDup (keys (self st)) → pool_ok (self st) → ¬ has_valid_key (self st) →
  select_key spins st = Throw AllKeysInsufficientQuota st.
Proof.
  intros Hnd Hpool Hnone. unfold select_key.
  by rewrite (pool_exhausted _ Hnd Hpool Hnone), Nat.eqb_refl.
Qed.

Lemma retry_loop_exhausted fuel spins data st :
  NoDup (keys (self st)) → pool_ok (self st) → ¬ has_valid_key (self st) →
  max_num_retries st < retry (self st) →
  retry_loop strip endpoint (S fuel) spins data st =
  Finished (Raise AllKeysInsufficientQuota) st.
Proof.
  intros Hnd Hpool Hnone Hlt%Z.ltb_lt. simpl. rewrite Hlt. unfold pass.
  by rewrite select_key_exhausted.
Qed.

(** When every key of the list is invalidated, the inner loop does not
    end, however many iterations it is given. *)
Lemma next_key_spins_forever spins : ∀ self,
  (key_ctr self < length (keys self))%nat →
  (∀ k, k ∈ keys self → k ∈ invalid_keys self) →
  next_key spins self = None.
Proof.
  induction spins as [|spins IH]; intros self Hctr Hall; [done|].
  rewrite next_key_step.
  pose proof (advance_lt self Hctr) as Hadv.
  destruct (lookup_lt_is_Some_2 (keys self) (advance self) Hadv) as [key Hkey].
  rewrite Hkey.
  rewrite bool_decide_eq_true_2 by (eapply Hall, list_elem_of_lookup_2, Hkey).
  by apply IH.
Qed.

Lemma retry_loop_spinning fuel spins data st :
  max_num_retries st < retry (self st) →
  size (invalid_keys (self st)) ≠ length (keys (self st)) →
  (key_ctr (self st) < length (keys (self st)))%nat →
  (∀ k, k ∈ keys (self st) → k ∈ invalid_keys (self st)) →
  retry_loop strip endpoint fuel spins data st = Running st.
Proof.
  intros Hlt%Z.ltb_lt Hsize%Nat.eqb_neq Hctr Hall.
  destruct fuel as [|fuel]; simpl; rewrite Hlt; [done|].
  unfold pass, select_key. rewrite Hsize.
  by rewrite next_key_spins_forever.
Qed.

Lemma retry_loop_step fuel spins data st :
  retry_loop strip endpoint (S fuel) spins data st =
  if max_num_retries st <? retry (self st) then
    match pass strip endpoint spins data st with
    | Continue st' => retry_loop strip endpoint fuel spins data st'
    | Return s st' => Finished (Ok s) st'
    | Throw e st' => Finished (Raise e) st'
    | Spinning st' => Running st'
    end
  else Finished (Raise (CallingOpenAIFailed (max_num_retries st) (errmsg st))) st.
Proof. reflexivity. Qed.


(** The task of a dialogue submitted by [chat] fails before the retry
    loop is entered. *)
Lemma chat_task_fails fuel spins this posted0 messages :
  _chat template_parser strip endpoint fuel spins this posted0 messages ∅
  = Finished (Raise (task_exception template_parser messages))
             (untouched this posted0).
Proof.
  unfold _chat, task_exception, untouched.
  destruct (template_parser _) as [rendered|e]; [|done].
  unfold generate_request_data. by rewrite lookup_empty.
Qed.

Lemma run_tasks_fail fuel spins ds : ∀ this posted0,
  run_tasks template_parser strip endpoint fuel spins this posted0 ds
  = (fun messages => Finished (Raise (task_exception template_parser messages))
                              (untouched this posted0)) <$> ds.
Proof.
  induction ds as [|d ds IH]; intros this posted0; [done|].
  cbn [run_tasks fmap list_fmap]. rewrite chat_task_fails.
  cbn [untouched self posted]. by rewrite IH.
Qed.

Lemma wait_all_failed (f : list BaseLLM.Turn → exn) (st : Loop)
    (ds : list (list BaseLLM.Turn)) :
  wait_all ((fun messages => Finished (Raise (f messages)) st) <$> ds)
  = Some ((fun messages => Raise (f messages)) <$> ds).
Proof.
  induction ds as [|d ds IH]; [done|].
  cbn [wait_all fmap list_fmap]. cbn [fmap list_fmap] in IH. by rewrite IH.
Qed.

(** The batch [chat] runs for a list of dialogues that is not empty. *)
Lemma chat_batch_fails fuel spins this posted0 d rest :
  chat template_parser strip endpoint fuel spins this posted0 (Dialogs (d :: rest))
  = Some (Raise (task_exception template_parser d)).
Proof.
  unfold chat. rewrite run_tasks_fail, wait_all_failed. done.
Qed.


End DispatchFacts.

Example strip_done : strip "  done
 " = "done"%string.
Proof. reflexivity. Qed.

Example strip_other_spaces :
  strip (encoded [28; 227; 128; 128; 100; 32; 101; 194; 160; 31]%nat) = "d e"%string.
Proof. reflexivity. Qed.

(** C1, counterexample: with a retry budget of 2 and an endpoint that
    always fails with a connection error, five passes post five requests,
    leave the retry counter at zero and the call has not failed; with a
    budget of 1, a rate-limited first request is followed by a second
    one, whose completion is returned. *)
Lemma transport_errors_do_not_consume_budget :
  running_with
    (_chat renderer strip (always (ConnectionError "refused")) 5 2
           (api "gpt-4o-mini" 2 ["k0"; "k1"]) 0 user_says_y params) 5 0 ∧
  finished_with
    (_chat renderer strip limited_once 5 2
           (api "gpt-4o-mini" 1 ["k0"; "k1"]) 0 user_says_y params)
    (Ok "done"%string) 2 0.
Proof. split; eexists; (split; [vm_compute; reflexivity|split; reflexivity]). Qed.

Lemma retry_budget_counts_other_errors_witness :
  ∃ st, _chat renderer strip (always (ErrorReply (Some "server_error") "boom"))
              2 2 (api "gpt-4o-mini" 2 ["k0"; "k1"]) 0 user_says_y params
        = Finished (Raise (CallingOpenAIFailed 2 (find_error "boom"))) st
        ∧ posted st = 2%nat.
Proof.
  eapply (retry_budget_counts_other_errors renderer strip
            (always (ErrorReply (Some "server_error") "boom"))
            (api "gpt-4o-mini" 2 ["k0"; "k1"]) 0 2 2 2 user_says_y params
            "<U>y</U><A>" _ _ "server_error" "boom").
  - reflexivity.
  - reflexivity.
  - split; [simpl; lia|apply empty_subseteq].
  - exists "k0"%string. split; [apply list_elem_of_here|apply not_elem_of_empty].
  - left. reflexivity.
  - reflexivity.
  - split; discriminate.
  - reflexivity.
  - lia.
  - simpl. lia.
Defined.

Lemma every_key_invalidated (k : string) :
  k ∈ keys (self after_first_pass) → k ∈ invalid_keys (self after_first_pass).
Proof.
  simpl. intros Hk. apply elem_of_singleton.
  repeat (apply elem_of_cons in Hk as [Hk|Hk]; [done|]).
  by apply elem_of_nil in Hk.
Qed.

(** C3, on the pool [["k"; "k"]] whose key has no quota: the first pass
    posts one request and invalidates the key; from then on every key of
    the list is invalidated, yet the call neither fails with the error of
    exhausted keys nor returns: whatever the number of passes and of inner
    iterations allowed, it is still inside the selection loop. *)
Theorem duplicate_keys_spin_forever (fuel spins : nat) :
  _chat renderer strip (always no_quota) (S (S fuel)) (S spins)
        (api "gpt-4o-mini" 2 ["k"; "k"]) 0 user_says_y params
    = Running after_first_pass ∧
  posted after_first_pass = 1%nat ∧
  (∀ k, k ∈ keys (self after_first_pass) →
        k ∈ invalid_keys (self after_first_pass)).
Proof.
  split; [|split; [reflexivity|]].
  - unfold _chat.
    change (renderer (BaseLLM.DList user_says_y)) with (Ok "<U>y</U><A>"%string).
    cbv iota beta.
    change (generate_request_data _ _ _ _)
      with (Ok (Request json_header (body_of "<U>y</U><A>"))).
    cbv iota beta. rewrite retry_loop_step.
    assert (Hpass : pass strip (always no_quota) (S spins)
                      (body_of "<U>y</U><A>")
                      (with_header
                         (mkLoop (api "gpt-4o-mini" 2 ["k"; "k"]) 0 "" None "" 0)
                         json_header)
                    = Continue after_first_pass) by (vm_compute; reflexivity).
    cbn [max_num_retries self with_header retry api]. rewrite Hpass.
    change (0 <? 2) with true. cbv iota.
    apply retry_loop_spinning.
    + simpl. lia.
    + vm_compute. discriminate.
    + simpl. lia.
    + apply every_key_invalidated.
  - apply every_key_invalidated.
Qed.


End OpenAIFacts.

(** ** The critical sections *)

Module LockingFacts.

Import Locking Scenarios.

Lemma with_never_blocks (w : Worker) (sh : Shared) :
  locks_allocated sh → pc w = AtWith →
  step w sh = Some (at_pc w (AtCheck (next_lock sh)), acquire_new sh).
Proof.
  intros Hinv Hpc. unfold step. rewrite Hpc.
  rewrite bool_decide_eq_false_2; [done|].
  intros Hheld%Hinv. lia.
Qed.

Lemma step_locks_allocated (w w' : Worker) (sh sh' : Shared) :
  locks_allocated sh → step w sh = Some (w', sh') → locks_allocated sh'.
Proof.
  intros Hinv Hstep l. unfold step in Hstep.
  repeat case_match; simplify_eq; simpl; try apply Hinv.
  all: try (intros [Hl _]%elem_of_difference; by apply Hinv).
  intros [->%elem_of_singleton|Hl%Hinv]%elem_of_union; lia.
Qed.

(** C9, on two workers entering [_chat] together: each [with Lock():]
    takes a lock of its own, so that after one statement of each both
    workers are inside the key selection, holding the locks 0 and 1; run
    on, both leave the section with the same key, the one in between
    being skipped; and the insertion into the invalidated set happens with
    no lock held while the other worker is inside its section, which then
    leaves it with a key that is invalidated. *)
Theorem fresh_locks_do_not_exclude :
  (∃ sys, run two_workers [0; 1]%nat = Some sys ∧
          in_section <$> workers sys = [true; true] ∧
          held (shared sys) = {[0%nat; 1%nat]}) ∧
  (∃ sys, run two_workers overtaking = Some sys ∧
          pcs sys = [AtPost "k2"; AtPost "k2"]) ∧
  (∃ sys, run one_key (take 13 late_invalidation) = Some sys ∧
          pcs sys = [AtTake 1; AtInvalidate "k0"] ∧
          held (shared sys) = {[1%nat]} ∧
          ∃ sys', run sys (drop 13 late_invalidation) = Some sys' ∧
                  pcs sys' = [AtPost "k0"; AtWith] ∧
                  invalid_keys (shared sys') = {["k0"]}).
Proof.
  split; [|split].
  - eexists. split; [reflexivity|]. split; [reflexivity|].
    apply set_eq. intros l. vm_compute. set_solver.
  - eexists. split; reflexivity.
  - eexists. split; [reflexivity|]. split; [reflexivity|]. split.
    + apply set_eq. intros l. vm_compute. set_solver.
    + eexists. split; [reflexivity|]. split; [reflexivity|].
      apply set_eq. intros l. vm_compute. set_solver.
Qed.

End LockingFacts.

(** ** More on the template renderer, and the class [BaseLLM] *)

Module RendererMore.

Import BaseLLMClass BaseLLM BaseLLMFacts PyLib Scenarios MoreScenarios.

Section RenderMore.
Variable str_format : string → string → result string.

#[local] Arguments _prompt2str : simpl never.

Lemma prompt2str_closed self m cfg b last :
  merged_prompt self m = Ok (Some cfg) →
  _format_begin str_format (Some cfg) m = Ok b →
  (last && truthy_flag (generate cfg) = false) →
  (last && negb (String.eqb (role cfg) "assistant") = false) →
  _prompt2str str_format self (TMsg m) last =
  Ok (b +:+ get_str (msg_content m) +:+ get_str (end_ cfg)).
Proof.
  intros Hcfg Hbegin Hgen Hrole. unfold _prompt2str.
  rewrite Hcfg. simpl. rewrite Hbegin. simpl. by rewrite Hgen, Hrole.
Qed.

(** X1: A meta template with pairwise distinct role names is accepted, and
    the role table maps each role name to its entry and no other name. *)
Theorem init_accepts_distinct_roles (meta : list RoleItem) :
  meta ≠ [] → NoDup (role <$> meta) →
  ∃ self, __init__ (Some meta) = Ok self ∧
    meta_template self = Some meta ∧
    (∀ item, item ∈ meta → roles self !! role item = Some item) ∧
    (∀ r, r ∉ role <$> meta → roles self !! r = None).
Proof.
  intros Hne Hnd.
  destruct (init_roles_nodup meta ∅ Hnd) as (table & Hok & Hin & Hout).
  { intros it _. apply lookup_empty. }
  exists (mkParser (Some meta) table). split; [|split; [done|split; [done|]]].
  - unfold __init__. destruct meta; [done|]. simpl in *. by rewrite Hok.
  - intros r Hr. by rewrite Hout, lookup_empty.
Qed.

(** A dialogue that ends with a raw string ends with that string: the
    assistant's begin phrase is not appended after it. *)
Lemma raw_last_turn_not_primed (self : LMTemplateParser) (pre : list Turn)
    (s p : string) :
  truthy_list (meta_template self) = true →
  render_loop str_format self (length (pre ++ [TStr s])) 0 pre "" = Ok p →
  __call__ str_format self (DList (pre ++ [TStr s])) = Ok (p +:+ s).
Proof.
  intros Hmeta Hpre. unfold __call__. rewrite Hmeta, render_loop_app, Hpre.
  reflexivity.
Qed.

(** A structured turn that is not the last one is closed with its end
    suffix, whatever its role and its [generate] flag. *)
Lemma inner_turn_closed (self : LMTemplateParser) (pre : list Turn)
    (m : Message) (cfg : RoleItem) (b p s : string) :
  truthy_list (meta_template self) = true →
  render_loop str_format self (length (pre ++ [TMsg m; TStr s])) 0 pre "" = Ok p →
  merged_prompt self m = Ok (Some cfg) →
  _format_begin str_format (Some cfg) m = Ok b →
  __call__ str_format self (DList (pre ++ [TMsg m; TStr s])) =
  Ok ((p +:+ b +:+ get_str (msg_content m) +:+ get_str (end_ cfg)) +:+ s).
Proof.
  intros Hmeta Hpre Hcfg Hbegin. unfold __call__.
  rewrite Hmeta, render_loop_app, Hpre. cbn [bind render_loop].
  assert (Hlast : (Z.of_nat (0 + length pre)
                   =? Z.of_nat (length (pre ++ [TMsg m; TStr s])) - 1) = false).
  { rewrite length_app. simpl. apply Z.eqb_neq. lia. }
  rewrite Hlast, (prompt2str_closed self m cfg b false) by done. reflexivity.
Qed.

(** When the last turn resolves to the assistant's configuration and it
    is not flagged [generate], the turn is closed with its end suffix and
    nothing is appended. *)
Lemma assistant_last_turn_closed (self : LMTemplateParser) (pre : list Turn)
    (m : Message) (cfg : RoleItem) (b p : string) :
  truthy_list (meta_template self) = true →
  render_loop str_format self (length (pre ++ [TMsg m])) 0 pre "" = Ok p →
  merged_prompt self m = Ok (Some cfg) →
  truthy_flag (generate cfg) = false →
  role cfg = "assistant"%string →
  _format_begin str_format (Some cfg) m = Ok b →
  __call__ str_format self (DList (pre ++ [TMsg m])) =
  Ok (p +:+ b +:+ get_str (msg_content m) +:+ get_str (end_ cfg)).
Proof.
  intros Hmeta Hpre Hcfg Hgen Hrole Hbegin.
  rewrite (call_last_turn _ _ _ _ p) by done.
  rewrite (prompt2str_closed self m cfg b true); [done|done|done| |].
  - by rewrite Hgen.
  - by rewrite Hrole.
Qed.

(** X2: A turn whose role is not in the role table makes the rendering of
    every dialogue that contains it fail, on [AttributeError]. *)
Theorem unknown_role_fails (self : LMTemplateParser) (m : Message) (r : string)
    (pre post : list Turn) :
  truthy_list (meta_template self) = true →
  msg_role m = Some r → roles self !! r = None →
  (∀ last, _prompt2str str_format self (TMsg m) last = Raise AttributeError) ∧
  is_raise (__call__ str_format self (DList (pre ++ TMsg m :: post))) = true.
Proof.
  intros Hmeta Hrole Hnone.
  assert (Hturn : ∀ last,
            _prompt2str str_format self (TMsg m) last = Raise AttributeError).
  { intros last. unfold _prompt2str, merged_prompt. by rewrite Hrole, Hnone. }
  split; [done|]. unfold __call__. rewrite Hmeta.
  apply render_loop_raise. intros last. by rewrite Hturn.
Qed.

(** X3: When the role table has no ['assistant'] entry, a dialogue whose
    last turn is closed and is not the assistant's fails on
    [KeyError('assistant')]. *)
Theorem missing_assistant_role (self : LMTemplateParser) (pre : list Turn)
    (m : Message) (cfg : RoleItem) (b p : string) :
  truthy_list (meta_template self) = true →
  render_loop str_format self (length (pre ++ [TMsg m])) 0 pre "" = Ok p →
  merged_prompt self m = Ok (Some cfg) →
  truthy_flag (generate cfg) = false →
  role cfg ≠ "assistant"%string →
  _format_begin str_format (Some cfg) m = Ok b →
  roles self !! "assistant"%string = None →
  __call__ str_format self (DList (pre ++ [TMsg m])) = Raise (KeyError "assistant").
Proof.
  intros Hmeta Hpre Hcfg Hgen Hrole Hbegin Hnone.
  rewrite (call_last_turn _ _ _ _ p) by done.
  unfold _prompt2str. rewrite Hcfg. simpl. rewrite Hbegin. simpl.
  rewrite Hgen. apply String.eqb_neq in Hrole. rewrite Hrole. simpl.
  by rewrite Hnone.
Qed.

(** An empty meta template counts as none: the renderer is built, and
    every list dialogue ends in [UnboundLocalError]. *)
Lemma empty_meta_template (items : list Turn) :
  ∃ self, __init__ (Some []) = Ok self ∧
          __call__ str_format self (DList items) = Raise UnboundLocalError.
Proof. eexists. split; reflexivity. Qed.

(** X4: A turn that carries a name cannot be rendered with a configuration
    whose begin phrase is a plain string: every dialogue that contains it
    fails, on [AttributeError]. *)
Theorem named_turn_plain_begin_fails (self : LMTemplateParser) (m : Message)
    (cfg : RoleItem) (s n : string) (pre post : list Turn) :
  truthy_list (meta_template self) = true →
  merged_prompt self m = Ok (Some cfg) →
  begin cfg = Some (BeginStr s) →
  msg_name m = Some n →
  (∀ last, _prompt2str str_format self (TMsg m) last = Raise AttributeError) ∧
  is_raise (__call__ str_format self (DList (pre ++ TMsg m :: post))) = true.
Proof.
  intros Hmeta Hcfg Hbegin Hname.
  assert (Hturn : ∀ last,
            _prompt2str str_format self (TMsg m) last = Raise AttributeError).
  { intros last. unfold _prompt2str. rewrite Hcfg. simpl.
    unfold _format_begin. by rewrite Hname, Hbegin. }
  split; [done|]. unfold __call__. rewrite Hmeta.
  apply render_loop_raise. intros last. by rewrite Hturn.
Qed.

End RenderMore.

Section ChatFacts.
Variable str_format : string → string → result string.
Variables (Kwargs Output : Type).
Variable generate : Prompts → Kwargs → result Output.

Lemma render_all_prompts self dialogs prompts :
  Forall2 (fun d p => BaseLLM.__call__ str_format (template_parser self) (DList d) = Ok p)
          dialogs prompts →
  render_all str_format self dialogs = Ok prompts.
Proof.
  induction 1 as [|d p ds ps Hd Hds IH]; cbn [render_all]; [done|].
  by rewrite Hd, IH.
Qed.

(** X5: A language model built with the default meta template, [None],
    cannot chat: every call of [chat] raises before [generate] is
    reached. *)
Theorem chat_without_meta_template (path : string) (tokenizer_only : bool)
    (max_new_tokens : Z) (top_p top_k temperature repetition_penalty : Q)
    (stop_words : StopWords) (inputs : ChatInputs) (kwargs : Kwargs) :
  ∃ llm, BaseLLMClass.__init__ path tokenizer_only None max_new_tokens top_p top_k
           temperature repetition_penalty stop_words = Ok llm ∧
    chat str_format Kwargs Output generate llm inputs kwargs =
    Raise (match inputs with
           | Turns [] | Dialogs [] => IndexError
           | _ => UnboundLocalError
           end).
Proof.
  eexists. split; [reflexivity|].
  destruct inputs as [[|t d]|[|d ds]]; reflexivity.
Qed.

(** On a batch whose dialogues all render, [chat] calls [generate] once,
    with the rendered prompts in the order of the dialogues. *)
Lemma chat_batch_in_order (self : BaseLLM) (dialogs : list (list Turn))
    (prompts : list string) (kwargs : Kwargs) :
  dialogs ≠ [] →
  Forall2 (fun d p => BaseLLM.__call__ str_format (template_parser self) (DList d) = Ok p)
          dialogs prompts →
  chat str_format Kwargs Output generate self (Dialogs dialogs) kwargs
  = generate (ManyPrompts prompts) kwargs.
Proof.
  intros Hne Hall. unfold chat. destruct dialogs as [|d ds]; [done|].
  by rewrite (render_all_prompts self (d :: ds) prompts Hall).
Qed.

(** A dialogue of a batch that does not render makes [chat] raise its
    error, when those before it render; [generate] is not called. *)
Lemma chat_batch_render_error (self : BaseLLM) (before after : list (list Turn))
    (d : list Turn) (prompts : list string) (e : exn) (kwargs : Kwargs) :
  Forall2 (fun d p => BaseLLM.__call__ str_format (template_parser self) (DList d) = Ok p)
          before prompts →
  BaseLLM.__call__ str_format (template_parser self) (DList d) = Raise e →
  chat str_format Kwargs Output generate self (Dialogs (before ++ d :: after)) kwargs
  = Raise e.
Proof.
  intros Hall Hd.
  assert (Hrender : render_all str_format self (before ++ d :: after) = Raise e).
  { induction Hall as [|d' p ds ps Hd' Hds IH]; cbn [app render_all].
    - by rewrite Hd.
    - by rewrite Hd', IH. }
  unfold chat. destruct (before ++ d :: after) eqn:Hlist.
  - by destruct before.
  - by rewrite Hrender.
Qed.

End ChatFacts.

Lemma init_accepts_distinct_roles_witness :
  ∃ self, __init__ (Some example_meta) = Ok self ∧
    meta_template self = Some example_meta ∧
    (∀ item, item ∈ example_meta → roles self !! role item = Some item) ∧
    (∀ r, r ∉ role <$> example_meta → roles self !! r = None).
Proof.
  apply (init_accepts_distinct_roles example_meta).
  - discriminate.
  - apply (bool_decide_unpack _). vm_compute. exact I.
Defined.

Lemma unknown_role_fails_witness :
  (∀ last, _prompt2str format_name example_parser (turn "tool" "x") last
           = Raise AttributeError) ∧
  is_raise (__call__ format_name example_parser
              (DList [turn "user" "y"; turn "tool" "x"])) = true.
Proof.
  apply (unknown_role_fails format_name example_parser
           (mkMsg (Some "tool"%string) (Some "x"%string) None) "tool"
           [turn "user" "y"] []).
  - reflexivity.
  - reflexivity.
  - reflexivity.
Defined.

Lemma missing_assistant_role_witness :
  __call__ format_name user_only_parser (DList [turn "user" "y"])
  = Raise (KeyError "assistant").
Proof.
  apply (missing_assistant_role format_name user_only_parser []
           (mkMsg (Some "user"%string) (Some "y"%string) None)
           (plain_role "user" "<U>" "</U>" None) "<U>" "").
  - reflexivity.
  - reflexivity.
  - reflexivity.
  - reflexivity.
  - discriminate.
  - reflexivity.
  - reflexivity.
Defined.

Lemma named_turn_plain_begin_fails_witness :
  (∀ last, _prompt2str format_name example_parser (named_turn "user" "y" "bob") last
           = Raise AttributeError) ∧
  is_raise (__call__ format_name example_parser
              (DList [named_turn "user" "y" "bob"])) = true.
Proof.
  apply (named_turn_plain_begin_fails format_name example_parser
           (mkMsg (Some "user"%string) (Some "y"%string) (Some "bob"%string))
           (plain_role "user" "<U>" "</U>" None) "<U>" "bob" [] []).
  - reflexivity.
  - reflexivity.
  - reflexivity.
  - reflexivity.
Defined.

Lemma assistant_last_turn_closed_witness :
  __call__ format_name fallback_parser (DList [TMsg bot_message])
  = Ok "<A>x</A>"%string.
Proof.
  apply (assistant_last_turn_closed format_name fallback_parser [] bot_message
           assistant_item "<A>" "").
  - reflexivity.
  - reflexivity.
  - reflexivity.
  - reflexivity.
  - reflexivity.
  - reflexivity.
Defined.

Lemma inner_turn_closed_witness :
  __call__ format_name example_parser
    (DList [turn "assistant" "hi"; TStr "!"])
  = Ok "<A>hi</A>!"%string.
Proof.
  apply (inner_turn_closed format_name example_parser []
           (mkMsg (Some "assistant"%string) (Some "hi"%string) None)
           (plain_role "assistant" "<A>" "</A>" (Some true)) "<A>" "" "!").
  - reflexivity.
  - reflexivity.
  - reflexivity.
  - reflexivity.
Defined.

Lemma raw_last_turn_not_primed_witness :
  __call__ format_name example_parser (DList [turn "user" "y"; TStr "?"])
  = Ok "<U>y</U>?"%string.
Proof.
  apply (raw_last_turn_not_primed format_name example_parser [turn "user" "y"]
           "?" "<U>y</U>").
  - reflexivity.
  - reflexivity.
Defined.
End RendererMore.

(** ** More on the dispatcher *)

Module DispatcherMore.

Import OpenAI OpenAIStates OpenAIFacts PyLib Scenarios MoreScenarios.

Lemma evolves_refl st : evolves st st.
Proof. unfold evolves. split_and!; try done; lia. Qed.

Lemma select_key_evolves spins st :
  evolves st (pass_state (select_key spins st)) ∧
  max_num_retries (pass_state (select_key spins st)) = max_num_retries st ∧
  (∀ st', select_key spins st = Continue st' → key st' ∈ keys (self st')).
Proof.
  unfold select_key. case_match; [split; [apply evolves_refl|done]|].
  destruct (next_key spins (self st)) as [[self'|e self']|] eqn:Hnext;
    [| |split; [apply evolves_refl|done]].
  2: { apply next_key_failed in Hnext as (-> & -> & Hnone). simpl.
       split; [|done]. unfold evolves. simpl. split_and!; try done; try lia.
       intros [Hctr _]. exfalso. apply advance_lt in Hctr.
       apply lookup_ge_None in Hnone. lia. }
  apply next_key_sound in Hnext as (c & k & Hself & Hk & Hvalid). subst self'.
  simpl. rewrite Hk.
  assert (Hev : ∀ h, evolves st
            (mkLoop (set_key_ctr (self st) c) (max_num_retries st) (errmsg st)
                    h k (posted st))).
  { intros h. unfold evolves. simpl. split_and!; try done; try lia.
    intros [_ Hsub]. split; [|done]. simpl. by eapply lookup_lt_Some. }
  destruct (header st) as [h|]; simpl.
  - split; [apply Hev|]. split; [done|]. intros st' [= <-]. simpl.
    by eapply list_elem_of_lookup_2.
  - split; [apply Hev|done].
Qed.

Lemma evolves_trans st1 st2 st3 : evolves st1 st2 → evolves st2 st3 → evolves st1 st3.
Proof.
  intros (? & ? & ? & ? & ? & ? & ?) (? & ? & ? & ? & ? & ? & ?).
  unfold evolves. split_and!; try congruence; try lia; [set_solver|tauto].
Qed.

Lemma select_org_evolves st :
  evolves st (pass_state (select_org st)) ∧
  max_num_retries (pass_state (select_org st)) = max_num_retries st ∧
  key (pass_state (select_org st)) = key st.
Proof.
  unfold select_org, next_org. destruct (orgs (self st)) as [|org rest] eqn:Horgs.
  - simpl. split; [|done]. unfold evolves. simpl. split_and!; try done; lia.
  - cbn [orgs set_org_ctr]. rewrite Horgs.
    destruct (_ !! _) as [o|]; simpl;
      (split; [|done]); unfold evolves; simpl; split_and!; try done; lia.
Qed.

Section Evolution.
Variable strip : string → string.
Variable endpoint : nat → gmap string string → gmap string Value → Reply.

Lemma post_evolves data st :
  key st ∈ keys (self st) →
  evolves st (pass_state (post strip endpoint data st)) ∧
  max_num_retries (pass_state (post strip endpoint data st))
    ≤ max_num_retries st + 1.
Proof.
  intros Hkey. unfold post.
  assert (Hpool : pool_ok (self st) →
                  pool_ok (add_invalid_key (self st) (key st))).
  { intros [Hctr Hsub]. split; [done|]. simpl.
    apply union_subseteq. split; [|done].
    apply singleton_subseteq_l, elem_of_list_to_set, Hkey. }
  destruct (endpoint _ _ _) as [tb|content|content|[code|] e| |e tb];
    try destruct (String.eqb code "rate_limit_exceeded");
    try destruct (String.eqb code "insufficient_quota");
    unfold evolves; simpl; split_and!; try done; try lia; set_solver.
Qed.

Lemma pass_evolves spins data st :
  evolves st (pass_state (pass strip endpoint spins data st)) ∧
  max_num_retries (pass_state (pass strip endpoint spins data st))
    ≤ max_num_retries st + 1.
Proof.
  unfold pass.
  destruct (select_key_evolves spins st) as (Hev1 & Hcount1 & Hkey1).
  destruct (select_key spins st) as [st1| | |] eqn:Hsel; simpl in *;
    try (split; [done|lia]).
  destruct (select_org_evolves st1) as (Hev2 & Hcount2 & Hkey2).
  destruct (select_org st1) as [st2| | |] eqn:Horg; simpl in *;
    try (split; [by eapply evolves_trans|lia]).
  destruct (post_evolves data st2) as [Hev3 Hcount3].
  { destruct Hev2 as (Hkeys & _). rewrite Hkeys, Hkey2. by apply Hkey1. }
  split; [|lia]. eapply evolves_trans; [|exact Hev3]. by eapply evolves_trans.
Qed.

Lemma retry_loop_evolves spins data fuel : ∀ st,
  evolves st (run_state (retry_loop strip endpoint fuel spins data st)) ∧
  (max_num_retries st ≤ retry (self st) →
   max_num_retries (run_state (retry_loop strip endpoint fuel spins data st))
     ≤ retry (self st)).
Proof.
  induction fuel as [|fuel IH]; intros st.
  - simpl. destruct (_ <? _); simpl; split; try apply evolves_refl; done.
  - rewrite retry_loop_step.
    destruct (Z.ltb_spec (max_num_retries st) (retry (self st))) as [Hlt|Hge];
      [|simpl; split; [apply evolves_refl|done]].
    destruct (pass_evolves spins data st) as [Hev Hcount].
    destruct (pass strip endpoint spins data st) as [st'|s st'|e st'|st'];
      simpl in *; try (split; [done|lia]).
    destruct (IH st') as [Hev' Hcount'].
    destruct Hev as (Hkeys & Hretry & Hrest).
    split; [eapply evolves_trans; [|exact Hev']; by split|].
    intros _. rewrite <- Hretry. apply Hcount'. lia.
Qed.

End Evolution.

Section CallFacts.
Variable template_parser : BaseLLM.Dialog → result string.
Variable strip : string → string.
Variable endpoint : nat → gmap string string → gmap string Value → Reply.

(** The state a call starts its loop in. *)
Lemma chat_unfold fuel spins this posted0 messages gen_params :
  _chat template_parser strip endpoint fuel spins this posted0 messages gen_params =
  let st0 := mkLoop this 0 EmptyString None EmptyString posted0 in
  match template_parser (BaseLLM.DList messages) with
  | Raise e => Finished (Raise e) st0
  | Ok rendered =>
      match generate_request_data (model_type this) rendered gen_params
                                  (json_mode this) with
      | Raise e => Finished (Raise e) st0
      | Ok EmptyRequest => retry_loop strip endpoint fuel spins ∅ st0
      | Ok (Request hd data) =>
          retry_loop strip endpoint fuel spins data (with_header st0 hd)
      end
  end.
Proof. reflexivity. Qed.

(** X13: Whatever a call does and however it ends, it leaves the key list,
    the retry budget and the organizations as they were, never takes a
    key out of the invalidated set, and leaves the cursor inside the list
    and the invalidated keys among the keys of the list. *)
Theorem call_keeps_pool (fuel spins : nat) (this : GPTAPI) (posted0 : nat)
    (messages : list BaseLLM.Turn) (gen_params : gmap string Value) :
  let st := run_state (_chat template_parser strip endpoint fuel spins this
                             posted0 messages gen_params) in
  keys (self st) = keys this ∧ retry (self st) = retry this ∧
  orgs (self st) = orgs this ∧
  invalid_keys this ⊆ invalid_keys (self st) ∧
  (posted0 ≤ posted st)%nat ∧
  (pool_ok this → pool_ok (self st)).
Proof.
  rewrite chat_unfold. cbv zeta.
  set (st0 := mkLoop this 0 EmptyString None EmptyString posted0).
  assert (Hloop : ∀ data st, self st = this → posted st = posted0 →
            let st' := run_state (retry_loop strip endpoint fuel spins data st) in
            keys (self st') = keys this ∧ retry (self st') = retry this ∧
            orgs (self st') = orgs this ∧
            invalid_keys this ⊆ invalid_keys (self st') ∧
            (posted0 ≤ posted st')%nat ∧ (pool_ok this → pool_ok (self st'))).
  { intros data st Hself Hposted.
    destruct (retry_loop_evolves strip endpoint spins data fuel st)
      as [(? & ? & ? & ? & ? & ? & ?) _].
    rewrite Hself, Hposted in *. cbv zeta. split_and!; done. }
  destruct (template_parser _) as [rendered|e]; [|simpl; split_and!; done].
  destruct (generate_request_data _ _ _ _) as [[|hd data]|e].
  - by apply Hloop.
  - by apply Hloop.
  - simpl. split_and!; done.
Qed.

Lemma pass_never_gives_up spins data st n msg st' :
  pass strip endpoint spins data st ≠ Throw (CallingOpenAIFailed n msg) st'.
Proof.
  unfold pass, select_key, select_org, next_org, post.
  destruct (next_key spins (self st)) as [[this|e this]|] eqn:Hnext;
    [| apply next_key_failed in Hnext as (-> & _ & _)|];
    repeat (case_match; simplify_eq/=; try done).
Qed.

Lemma retry_loop_gives_up spins data fuel : ∀ st n msg st',
  retry_loop strip endpoint fuel spins data st
    = Finished (Raise (CallingOpenAIFailed n msg)) st' →
  n = max_num_retries st' ∧ msg = errmsg st' ∧ retry (self st') ≤ n.
Proof.
  induction fuel as [|fuel IH]; intros st n msg st'.
  - simpl. destruct (Z.ltb_spec (max_num_retries st) (retry (self st)));
      [done|]. intros [= <- <- <-]. split_and!; [done|done|lia].
  - rewrite retry_loop_step.
    destruct (Z.ltb_spec (max_num_retries st) (retry (self st)));
      [|intros [= <- <- <-]; split_and!; [done|done|lia]].
    destruct (pass strip endpoint spins data st) as [st1|s st1|e st1|st1] eqn:Hpass;
      try done; [apply IH|].
    intros [= -> ->]. by apply pass_never_gives_up in Hpass.
Qed.

(** X12: When a call gives up, the number of retries its error reports is the
    retry budget, and the message is the last diagnostic recorded. *)
Theorem terminal_error_reports_budget (fuel spins : nat) (this : GPTAPI)
    (posted0 : nat) (messages : list BaseLLM.Turn)
    (gen_params : gmap string Value) (rendered : string) (n : Z)
    (msg : string) (st : Loop) :
  template_parser (BaseLLM.DList messages) = Ok rendered →
  0 ≤ retry this →
  _chat template_parser strip endpoint fuel spins this posted0 messages gen_params
    = Finished (Raise (CallingOpenAIFailed n msg)) st →
  n = retry this ∧ msg = errmsg st ∧ max_num_retries st = retry this.
Proof.
  intros Hrender Hretry. rewrite chat_unfold, Hrender. cbv zeta.
  assert (Hloop : ∀ data st0, self st0 = this → max_num_retries st0 = 0 →
            retry_loop strip endpoint fuel spins data st0
              = Finished (Raise (CallingOpenAIFailed n msg)) st →
            n = retry this ∧ msg = errmsg st ∧ max_num_retries st = retry this).
  { intros data st0 Hself Hzero Hloop.
    destruct (retry_loop_evolves strip endpoint spins data fuel st0)
      as [(_ & Hsame & _) Hbound].
    rewrite Hloop, Hself, Hzero in *. simpl in *.
    apply retry_loop_gives_up in Hloop as (-> & -> & Hge).
    specialize (Hbound Hretry). split_and!; [lia|done|lia]. }
  destruct (generate_request_data _ _ _ _) as [[|hd data]|e] eqn:Hdata.
  - by apply Hloop.
  - by apply Hloop.
  - intros [= ->]. unfold generate_request_data, min_4096 in Hdata.
    repeat (case_match; simplify_eq/=).
Qed.

(** X9: With a retry budget that is not positive the call posts no request
    and touches no cursor: it gives up at once, with an empty diagnostic. *)
Theorem no_budget_no_request (fuel spins : nat) (this : GPTAPI) (posted0 : nat)
    (messages : list BaseLLM.Turn) (gen_params : gmap string Value)
    (rendered : string) (request : RequestData) :
  template_parser (BaseLLM.DList messages) = Ok rendered →
  generate_request_data (model_type this) rendered gen_params (json_mode this)
    = Ok request →
  retry this ≤ 0 →
  ∃ st, _chat template_parser strip endpoint fuel spins this posted0 messages
              gen_params
        = Finished (Raise (CallingOpenAIFailed 0 "")) st ∧
        self st = this ∧ posted st = posted0.
Proof.
  intros Hrender Hdata Hretry. rewrite chat_unfold, Hrender, Hdata. cbv zeta.
  assert (Hloop : ∀ data st0, self st0 = this → max_num_retries st0 = 0 →
            errmsg st0 = EmptyString →
            retry_loop strip endpoint fuel spins data st0
            = Finished (Raise (CallingOpenAIFailed 0 "")) st0).
  { intros data st0 Hself Hzero Hmsg.
    assert (Hge : (max_num_retries st0 <? retry (self st0)) = false)
      by (apply Z.ltb_ge; rewrite Hself, Hzero; lia).
    destruct fuel; simpl; by rewrite Hge, Hzero, Hmsg. }
  destruct request as [|hd data]; eexists; (split; [by apply Hloop|done]).
Qed.


(** A pass from a state in order selects a key that is not invalidated,
    sets the organization and posts. *)
Lemma pass_posts spins data st :
  ready st → (length (keys (self st)) ≤ spins)%nat →
  ∃ st', pass strip endpoint spins data st = post strip endpoint data st' ∧
         frame st st' ∧ ready st' ∧
         key st' ∈ keys (self st) ∧ (key st' ∉ invalid_keys (self st)).
Proof.
  intros Hready Hspins. unfold pass.
  destruct (select_key_continue spins st Hready Hspins)
    as (st1 & Hsel & Hframe1 & Hready1 & Hin & Hvalid).
  destruct (select_org_continue st1 Hready1)
    as (st2 & Horg & Hframe2 & Hready2 & Hkey).
  rewrite Hsel, Horg. exists st2. split; [done|].
  destruct Hframe1 as (? & ? & ? & ? & ? & ? & ?).
  destruct Hframe2 as (? & ? & ? & ? & ? & ? & ?).
  unfold frame. rewrite Hkey. split_and!; try done; congruence.
Qed.

Lemma chat_first_pass fuel spins this posted0 messages gen_params rendered hd data :
  template_parser (BaseLLM.DList messages) = Ok rendered →
  generate_request_data (model_type this) rendered gen_params (json_mode this)
    = Ok (Request hd data) →
  pool_ok this → has_valid_key this → orgs_ok this →
  0 < retry this → (length (keys this) ≤ spins)%nat →
  ∃ st, posted st = posted0 ∧ max_num_retries st = 0 ∧
        key st ∈ keys this ∧ (key st ∉ invalid_keys this) ∧
        invalid_keys (self st) = invalid_keys this ∧
        _chat template_parser strip endpoint (S fuel) spins this posted0 messages
              gen_params =
        match post strip endpoint data st with
        | Continue st' => retry_loop strip endpoint fuel spins data st'
        | Return s st' => Finished (Ok s) st'
        | Throw e st' => Finished (Raise e) st'
        | Spinning st' => Running st'
        end.
Proof.
  intros Hrender Hdata Hpool Hvalid Horgs Hretry Hspins.
  rewrite chat_unfold, Hrender, Hdata. cbv zeta.
  set (st0 := with_header _ hd).
  assert (Hready : ready st0) by (split; [by eexists|done]).
  destruct (pass_posts spins data st0 Hready Hspins)
    as (st & Hpass & (_ & _ & Hinv & _ & Hcount & _ & Hposted) & _ & Hin & Hnin).
  exists st. rewrite retry_loop_step, Hpass.
  assert (Hlt : (max_num_retries st0 <? retry (self st0)) = true)
    by (apply Z.ltb_lt; simpl; lia).
  rewrite Hlt. split_and!; done.
Qed.


(** X11: A provider error that carries no code is not retried: the
    [KeyError] of the lookup of ['code'] leaves the call after that
    request, whatever the retry budget. *)
Theorem error_without_code_escapes (fuel spins : nat) (this : GPTAPI)
    (posted0 : nat) (messages : list BaseLLM.Turn)
    (gen_params : gmap string Value) (rendered : string)
    (hd : gmap string string) (data : gmap string Value) (error_str : string) :
  template_parser (BaseLLM.DList messages) = Ok rendered →
  generate_request_data (model_type this) rendered gen_params (json_mode this)
    = Ok (Request hd data) →
  pool_ok this → has_valid_key this → orgs_ok this →
  0 < retry this → (length (keys this) ≤ spins)%nat →
  (∀ h d, endpoint posted0 h d = ErrorReply None error_str) →
  ∃ st, _chat template_parser strip endpoint (S fuel) spins this posted0 messages
              gen_params
        = Finished (Raise (KeyError "code")) st ∧
        posted st = S posted0 ∧ max_num_retries st = 0.
Proof.
  intros Hrender Hdata Hpool Hvalid Horgs Hretry Hspins Hreply.
  destruct (chat_first_pass fuel spins this posted0 messages gen_params rendered
              hd data) as (st & Hposted & Hcount & Hin & Hnin & _ & Hchat);
    try done.
  rewrite Hchat. unfold post. rewrite Hposted, Hreply.
  eexists. split; [done|]. simpl. split; [by rewrite Hposted|done].
Qed.

(** X8: A token limit that is not positive gives no request at all, whatever
    the model; the call then raises [TypeError] when it sets the header of
    its first pass, before any request. *)
Theorem no_tokens_no_request (fuel spins : nat) (this : GPTAPI) (posted0 : nat)
    (messages : list BaseLLM.Turn) (gen_params : gmap string Value)
    (rendered : string) (limit : Z) :
  template_parser (BaseLLM.DList messages) = Ok rendered →
  gen_params !! "max_new_tokens"%string = Some (VInt limit) → limit ≤ 0 →
  pool_ok this → has_valid_key this →
  0 < retry this → (length (keys this) ≤ spins)%nat →
  generate_request_data (model_type this) rendered gen_params (json_mode this)
    = Ok EmptyRequest ∧
  ∃ st, _chat template_parser strip endpoint (S fuel) spins this posted0 messages
              gen_params
        = Finished (Raise TypeError) st ∧ posted st = posted0.
Proof.
  intros Hrender Hlimit Hle Hpool Hvalid Hretry Hspins.
  assert (Hdata : generate_request_data (model_type this) rendered gen_params
                    (json_mode this) = Ok EmptyRequest).
  { unfold generate_request_data. rewrite Hlimit. simpl.
    destruct (Z.ltb_spec 4096 limit); [lia|]. simpl.
    by destruct (Z.leb_spec limit 0); [|lia]. }
  split; [done|]. rewrite chat_unfold, Hrender, Hdata. cbv zeta.
  rewrite retry_loop_step. simpl.
  destruct (Z.ltb_spec 0 (retry this)); [|lia].
  unfold pass, select_key. simpl.
  pose proof (pool_not_exhausted _ Hpool Hvalid) as Hsize.
  apply Nat.eqb_neq in Hsize. rewrite Hsize.
  destruct (next_key_total spins this) as [self' Hnext]; [apply Hpool|done|done|].
  rewrite Hnext.
  apply next_key_sound in Hnext as (c & k & -> & Hk & _). simpl. rewrite Hk.
  by eexists.
Qed.

End CallFacts.

(** X14: The key selection moves the cursor to the next position of the
    list, cyclically, when the key there is not invalidated, and puts that
    key in the [Authorization] header. *)
Theorem rotation_advances_by_one (spins : nat) (st : Loop)
    (h : gmap string string) (k : string) :
  header st = Some h →
  pool_ok (self st) →
  keys (self st) !! ((key_ctr (self st) + 1) mod length (keys (self st)))%nat
    = Some k →
  k ∉ invalid_keys (self st) →
  ∃ st', select_key (S spins) st = Continue st' ∧
    key_ctr (self st') = ((key_ctr (self st) + 1) mod length (keys (self st)))%nat ∧
    key st' = k ∧
    header st' = Some (<["Authorization"%string := ("Bearer " +:+ k)%string]> h).
Proof.
  intros Hh Hpool Hk Hvalid.
  assert (Hhas : has_valid_key (self st)).
  { exists k. split; [by eapply list_elem_of_lookup_2|done]. }
  pose proof (pool_not_exhausted _ Hpool Hhas) as Hsize%Nat.eqb_neq.
  rewrite <- advance_mod in * by apply Hpool.
  unfold select_key. rewrite Hsize, next_key_step, Hk.
  rewrite bool_decide_eq_false_2 by done. simpl. rewrite Hk, Hh.
  by eexists.
Qed.

(** With organizations configured, each pass moves the organization
    cursor to the next position, cyclically, and puts the organization
    there in the [OpenAI-Organization] header. *)
Lemma organization_advances_by_one (st : Loop) :
  orgs (self st) ≠ [] →
  (org_ctr (self st) < length (orgs (self st)))%nat →
  ∃ st' org, select_org st = Continue st' ∧
    org_ctr (self st') = ((org_ctr (self st) + 1) mod length (orgs (self st)))%nat ∧
    orgs (self st) !! org_ctr (self st') = Some org ∧
    header st' = Some (<["OpenAI-Organization"%string := org]>
                         (default ∅ (header st))).
Proof.
  intros Hne Hlt. unfold select_org, next_org.
  destruct (orgs (self st)) as [|o rest] eqn:Horgs; [done|].
  set (ctr := if (S (org_ctr (self st)) =? length (o :: rest))%nat
              then O else S (org_ctr (self st))).
  assert (Hmod : ctr = ((org_ctr (self st) + 1) mod length (o :: rest))%nat).
  { unfold ctr. destruct (Nat.eqb_spec (S (org_ctr (self st))) (length (o :: rest)))
      as [Heq|Hneq].
    - replace (org_ctr (self st) + 1)%nat with (length (o :: rest)) by lia.
      by rewrite Nat.Div0.mod_same.
    - rewrite Nat.mod_small; lia. }
  assert (Hctr : (ctr < length (o :: rest))%nat).
  { rewrite Hmod. apply Nat.mod_upper_bound. simpl. lia. }
  destruct (lookup_lt_is_Some_2 _ _ Hctr) as [org Horg].
  cbn [orgs set_org_ctr]. rewrite Horgs, Horg.
  eexists _, org. split_and!; [done|exact Hmod|exact Horg|done].
Qed.

(** X15: Whatever the state, a key selection that ends holds a key of the
    list that is not in the invalidated set, and has put that key in the
    [Authorization] header. *)
Theorem selected_key_is_valid (spins : nat) (st st' : Loop) :
  select_key spins st = Continue st' →
  key st' ∈ keys (self st') ∧ (key st' ∉ invalid_keys (self st')) ∧
  ∃ h, header st' = Some h ∧
       h !! "Authorization"%string = Some ("Bearer " +:+ key st')%string.
Proof.
  intros Hsel.
  destruct (select_key_never_invalid spins st st' Hsel) as (Hin & Hnin & Hinv).
  destruct (select_key_evolves spins st) as ((Hkeys & _) & _ & _).
  rewrite Hsel in Hkeys. simpl in Hkeys. rewrite Hkeys, Hinv.
  split; [done|]. split; [done|].
  unfold select_key in Hsel. repeat (case_match; simplify_eq/=).
  eexists. split; [done|]. apply lookup_insert_eq.
Qed.

Section Quota.
Variable template_parser : BaseLLM.Dialog → result string.
Variable strip : string → string.
Variable endpoint : nat → gmap string string → gmap string Value → Reply.

Lemma has_valid_key_iff this :
  has_valid_key this ↔ valid_keys this ≠ ∅.
Proof.
  unfold has_valid_key, valid_keys. split.
  - intros (k & Hin & Hnin) Hempty.
    assert (k ∈ (list_to_set (keys this) ∖ invalid_keys this : gset string)) as H
      by (apply elem_of_difference; split; [by apply elem_of_list_to_set|done]).
    rewrite Hempty in H. by apply not_elem_of_empty in H.
  - intros Hne. apply set_choose_L in Hne as [k Hk].
    apply elem_of_difference in Hk as [Hin%elem_of_list_to_set Hnin]. eauto.
Qed.

Hypothesis Hquota : ∀ n h d, ∃ error_str,
  endpoint n h d = ErrorReply (Some "insufficient_quota") error_str.

Lemma pass_without_quota spins data st :
  ready st → (length (keys (self st)) ≤ spins)%nat →
  ∃ st', pass strip endpoint spins data st = Continue st' ∧
    is_Some (header st') ∧ orgs_ok (self st') ∧ pool_ok (self st') ∧
    keys (self st') = keys (self st) ∧ retry (self st') = retry (self st) ∧
    max_num_retries st' = max_num_retries st ∧ posted st' = S (posted st) ∧
    size (valid_keys (self st)) = S (size (valid_keys (self st'))).
Proof.
  intros Hready Hspins.
  destruct (pass_posts strip endpoint spins data st Hready Hspins)
    as (st1 & Hpass & Hframe & Hready1 & Hin & Hnin).
  destruct Hframe as (Hretry & Hkeys & Hinv & Horgs & Hcount & _ & Hposted).
  destruct (post_handlers strip endpoint data st1)
    as (st2 & Hposted2 & Hheader & _ & Hpost).
  destruct (Hquota (posted st1) (default ∅ (header st1)) data) as [e He].
  rewrite He in Hpost. simpl in Hpost.
  destruct Hpost as (Hpost & Hcount2 & _ & Hself).
  exists st2. rewrite Hpass, Hpost.
  destruct Hready1 as (Hh & Hpool & _ & Horgs1).
  rewrite Hself, Hheader. simpl.
  split_and!; try done; try congruence.
  - destruct Hpool as [Hctr Hsub]. split; [done|]. simpl.
    apply union_subseteq. split; [|done].
    apply singleton_subseteq_l, elem_of_list_to_set. by rewrite Hkeys.
  - unfold valid_keys. simpl. rewrite Hkeys, Hinv.
    assert (Hsplit : (list_to_set (keys (self st)) ∖ invalid_keys (self st) : gset string)
              = {[key st1]} ∪
                (list_to_set (keys (self st)) ∖ ({[key st1]} ∪ invalid_keys (self st)))).
    { apply set_eq. intros k. rewrite elem_of_union, !elem_of_difference,
        elem_of_union, elem_of_singleton, elem_of_list_to_set.
      destruct (decide (k = key st1)) as [->|]; [tauto|]. tauto. }
    rewrite Hsplit at 1. rewrite size_union, size_singleton; [done|].
    apply disjoint_singleton_l. intros [_ Hout]%elem_of_difference.
    apply Hout, elem_of_union_l, elem_of_singleton. done.
Qed.

Lemma retry_loop_without_quota spins data n : ∀ fuel st,
  NoDup (keys (self st)) →
  is_Some (header st) → orgs_ok (self st) → pool_ok (self st) →
  (length (keys (self st)) ≤ spins)%nat →
  max_num_retries st < retry (self st) →
  size (valid_keys (self st)) = n → (n < fuel)%nat →
  ∃ st', retry_loop strip endpoint fuel spins data st
           = Finished (Raise AllKeysInsufficientQuota) st' ∧
         posted st' = (posted st + n)%nat ∧
         max_num_retries st' = max_num_retries st ∧
         valid_keys (self st') = ∅.
Proof.
  induction n as [|n IH]; intros fuel st Hnd Hh Horgs Hpool Hspins Hlt Hsize Hfuel;
    (destruct fuel as [|fuel]; [lia|]).
  - apply size_empty_inv in Hsize. apply leibniz_equiv in Hsize.
    assert (Hnone : ¬ has_valid_key (self st)).
    { rewrite has_valid_key_iff, Hsize. by intros H. }
    exists st.
    rewrite (retry_loop_exhausted strip endpoint fuel spins data st Hnd Hpool
               Hnone Hlt).
    split_and!; [done|lia|done|done].
  - assert (Hready : ready st).
    { split_and!; try done. apply has_valid_key_iff. intros Hempty.
      rewrite Hempty, size_empty in Hsize. lia. }
    destruct (pass_without_quota spins data st Hready Hspins)
      as (st1 & Hpass & Hh1 & Horgs1 & Hpool1 & Hkeys & Hretry & Hcount & Hposted
          & Hless).
    rewrite retry_loop_step, Hpass.
    assert (Hcond : (max_num_retries st <? retry (self st)) = true)
      by by apply Z.ltb_lt.
    rewrite Hcond.
    destruct (IH fuel st1) as (st' & Hloop & Hposted' & Hcount' & Hempty);
      try done; try congruence; try lia.
    exists st'. rewrite Hloop. split_and!; [done|lia|congruence|done].
Qed.

(** X16: With pairwise distinct keys and a positive retry budget, when every
    request is answered with [insufficient_quota], the call posts one
    request for each key that was not invalidated and then fails with the
    error of exhausted keys; no retry is counted. *)
Theorem every_key_tried_once (fuel spins : nat) (this : GPTAPI) (posted0 : nat)
    (messages : list BaseLLM.Turn) (gen_params : gmap string Value)
    (rendered : string) (hd : gmap string string) (data : gmap string Value) :
  template_parser (BaseLLM.DList messages) = Ok rendered →
  generate_request_data (model_type this) rendered gen_params (json_mode this)
    = Ok (Request hd data) →
  NoDup (keys this) → pool_ok this → orgs_ok this →
  0 < retry this →
  (length (keys this) ≤ spins)%nat → (size (valid_keys this) < fuel)%nat →
  ∃ st, _chat template_parser strip endpoint fuel spins this posted0 messages
              gen_params
        = Finished (Raise AllKeysInsufficientQuota) st ∧
        posted st = (posted0 + size (valid_keys this))%nat ∧
        max_num_retries st = 0 ∧
        (∀ k, k ∈ keys this → k ∈ invalid_keys (self st)).
Proof.
  intros Hrender Hdata Hnd Hpool Horgs Hretry Hspins Hfuel.
  rewrite (chat_unfold template_parser), Hrender, Hdata. cbv zeta.
  set (st0 := with_header _ hd).
  assert (Hh : is_Some (header st0)) by by eexists.
  assert (Hlt : max_num_retries st0 < retry (self st0)) by (simpl; lia).
  destruct (retry_loop_without_quota spins data (size (valid_keys this)) fuel st0
              Hnd Hh Horgs Hpool Hspins Hlt eq_refl Hfuel)
    as (st & Hloop & Hposted & Hcount & Hempty).
  exists st. split_and!; try done.
  intros k Hk.
  destruct (retry_loop_evolves strip endpoint spins data fuel st0)
    as [(Hkeys & _) _]. rewrite Hloop in Hkeys. simpl in Hkeys.
  destruct (decide (k ∈ invalid_keys (self st))) as [|Hnin]; [done|].
  assert (k ∈ valid_keys (self st)) as H.
  { apply elem_of_difference. split; [|done].
    apply elem_of_list_to_set. by rewrite Hkeys. }
  rewrite Hempty in H. by apply not_elem_of_empty in H.
Qed.

End Quota.

Section BatchFacts.
Variable template_parser : BaseLLM.Dialog → result string.
Variable strip : string → string.
Variable endpoint : nat → gmap string string → gmap string Value → Reply.

(** X17: [chat] never returns a completion.  It calls [_chat] without
    generation parameters, so that the task of a dialogue raises the
    exception of rendering it or else [KeyError] for ['max_new_tokens'];
    for one dialogue and for a list of dialogues that is not empty, the
    exception of the first task is raised again; an empty list of inputs
    raises [IndexError]. *)
Theorem chat_always_raises (fuel spins : nat) (this : GPTAPI) (posted0 : nat)
    (inputs : ChatInputs) :
  chat template_parser strip endpoint fuel spins this posted0 inputs
  = Some (Raise match inputs with
                | OneDialog first rest =>
                    task_exception template_parser (BaseLLM.TMsg first :: rest)
                | Dialogs [] => IndexError
                | Dialogs (d :: _) => task_exception template_parser d
                end).
Proof.
  destruct inputs as [first rest|[|d ds]]; [|done|apply chat_batch_fails].
  unfold chat. rewrite run_tasks_fail, wait_all_failed. done.
Qed.

End BatchFacts.

Lemma rename_key_lookup (key new k : string) (d : gmap string Value) :
  key ≠ new →
  rename_key key new d !! k =
  match d !! key with
  | Some v => if decide (k = new) then Some v
              else if decide (k = key) then None else d !! k
  | None => d !! k
  end.
Proof.
  intros Hne. unfold rename_key. destruct (d !! key) as [v|] eqn:Hkey; [|done].
  destruct (decide (k = new)) as [->|Hnew]; [by rewrite lookup_insert_eq|].
  rewrite lookup_insert_ne by done.
  destruct (decide (k = key)) as [->|Hk]; [by rewrite lookup_delete_eq|].
  by rewrite lookup_delete_ne.
Qed.

Lemma generate_request_data_positive model messages gen_params json limit :
  gen_params !! "max_new_tokens"%string = Some (VInt limit) → 0 < limit →
  generate_request_data model messages gen_params json =
  if startswith (lower model) "gpt" || startswith (lower model) "qwen"
  then Ok (Request {["content-type"%string := "application/json"%string]}
             (request_body model messages
                (delete "session_id" (delete "skip_special_tokens"
                   (delete "top_k" (renamed limit gen_params)))) json))
  else if startswith (lower model) "internlm"
  then Ok (Request {["content-type"%string := "application/json"%string]}
             (request_body model messages (renamed limit gen_params) json))
  else Raise (NotImplementedError model).
Proof.
  intros Hlimit Hpos. unfold generate_request_data, renamed. rewrite Hlimit. simpl.
  destruct (Z.ltb_spec 4096 limit).
  - simpl. by rewrite Z.min_r by lia.
  - simpl. destruct (Z.leb_spec limit 0); [lia|]. by rewrite Z.min_l by lia.
Qed.

Lemma request_body_lookup model messages gen_params json k :
  k ≠ "response_format"%string →
  request_body model messages gen_params json !! k =
  match gen_params !! k with
  | Some v => Some v
  | None =>
      if decide (k = "model"%string) then Some (VStr model)
      else if decide (k = "messages"%string) then Some (VStr messages)
      else if decide (k = "n"%string) then Some (VInt 1)
      else None
  end.
Proof.
  intros Hk. unfold request_body.
  assert (Hunion : (gen_params ∪ <["model"%string := VStr model]>
                      (<["messages"%string := VStr messages]>
                         {["n"%string := VInt 1]})) !! k =
                   match gen_params !! k with
                   | Some v => Some v
                   | None =>
                       if decide (k = "model"%string) then Some (VStr model)
                       else if decide (k = "messages"%string)
                            then Some (VStr messages)
                       else if decide (k = "n"%string) then Some (VInt 1)
                       else None
                   end).
  { rewrite lookup_union. destruct (gen_params !! k) as [v|].
    - by destruct (_ !! k).
    - rewrite (left_id None _).
      repeat case_decide; subst;
        repeat first [rewrite lookup_insert_eq | rewrite lookup_insert_ne by done
                     | rewrite lookup_singleton_eq
                     | rewrite lookup_singleton_ne by done]; done. }
  destruct json; [rewrite lookup_insert_ne by done|]; exact Hunion.
Qed.

(** X6: For a model of the [gpt] or [qwen] family and a positive token
    limit, the request body carries the limit capped at 4096 under
    ['max_tokens'], the stop words under ['stop'] and the repetition
    penalty under ['frequency_penalty']; the original names and ['top_k']
    are not sent.  With the JSON mode on, the response format is the JSON
    object format; with the mode off, it is the entry of the generation
    parameters under ['response_format'], which is sent on as it is, and
    there is none when they have none. *)
Theorem request_body_of_gpt (model messages : string)
    (gen_params : gmap string Value) (json : bool) (limit : Z) :
  gen_params !! "max_new_tokens"%string = Some (VInt limit) → 0 < limit →
  startswith (lower model) "gpt" || startswith (lower model) "qwen" = true →
  ∃ data,
    generate_request_data model messages gen_params json
      = Ok (Request {["content-type"%string := "application/json"%string]} data) ∧
    data !! "max_tokens"%string = Some (VInt (Z.min limit 4096)) ∧
    data !! "stop"%string =
      match gen_params !! "stop_words"%string with
      | Some v => Some v
      | None => gen_params !! "stop"%string
      end ∧
    data !! "frequency_penalty"%string =
      match gen_params !! "repetition_penalty"%string with
      | Some v => Some v
      | None => gen_params !! "frequency_penalty"%string
      end ∧
    data !! "max_new_tokens"%string = None ∧
    data !! "stop_words"%string = None ∧
    data !! "repetition_penalty"%string = None ∧
    data !! "top_k"%string = None ∧
    data !! "response_format"%string =
      (if json then Some json_object_format
       else gen_params !! "response_format"%string).
Proof.
  intros Hlimit Hpos Hfamily.
  rewrite (generate_request_data_positive _ _ _ _ limit), Hfamily by done.
  eexists. split; [done|].
  assert (Hother : ∀ k, k ≠ "session_id"%string → k ≠ "skip_special_tokens"%string →
            k ≠ "top_k"%string →
            delete "session_id"%string (delete "skip_special_tokens"%string
              (delete "top_k"%string (renamed limit gen_params))) !! k
            = renamed limit gen_params !! k).
  { intros k ? ? ?. by rewrite !lookup_delete_ne. }
  unfold renamed in *.
  split_and!.
  - rewrite request_body_lookup, Hother by done.
    rewrite !rename_key_lookup by done.
    rewrite !lookup_insert_ne, !lookup_delete_ne by done.
    rewrite lookup_insert_eq. by repeat case_match.
  - rewrite request_body_lookup, Hother by done.
    rewrite !rename_key_lookup by done.
    rewrite !lookup_insert_ne, !lookup_delete_ne by done.
    destruct (gen_params !! "repetition_penalty"%string),
             (gen_params !! "stop_words"%string),
             (gen_params !! "stop"%string);
      repeat (case_decide; simplify_eq); done.
  - rewrite request_body_lookup, Hother by done.
    rewrite !rename_key_lookup by done.
    rewrite !lookup_insert_ne, !lookup_delete_ne by done.
    destruct (gen_params !! "repetition_penalty"%string),
             (gen_params !! "stop_words"%string),
             (gen_params !! "frequency_penalty"%string);
      repeat (case_decide; simplify_eq); done.
  - rewrite request_body_lookup, Hother by done.
    rewrite !rename_key_lookup by done.
    rewrite !lookup_insert_ne, !lookup_delete_ne by done.
    rewrite lookup_delete_eq.
    destruct (gen_params !! "repetition_penalty"%string),
             (gen_params !! "stop_words"%string);
      repeat (case_decide; simplify_eq); done.
  - rewrite request_body_lookup, Hother by done.
    rewrite !rename_key_lookup by done.
    rewrite !lookup_insert_ne, !lookup_delete_ne by done.
    destruct (gen_params !! "repetition_penalty"%string),
             (gen_params !! "stop_words"%string);
      repeat (case_decide; simplify_eq); done.
  - rewrite request_body_lookup, Hother by done.
    rewrite !rename_key_lookup by done.
    rewrite !lookup_insert_ne, !lookup_delete_ne by done.
    destruct (gen_params !! "repetition_penalty"%string),
             (gen_params !! "stop_words"%string);
      repeat (case_decide; simplify_eq); done.
  - rewrite request_body_lookup by done.
    rewrite lookup_delete_ne, lookup_delete_ne, lookup_delete_eq by done. done.
  - unfold request_body. destruct json; [by rewrite lookup_insert_eq|].
    rewrite lookup_union.
    rewrite (lookup_insert_ne _ "model"%string), (lookup_insert_ne _ "messages"%string),
      lookup_singleton_ne by done.
    rewrite (right_id None _), !lookup_delete_ne by done.
    rewrite !rename_key_lookup by done.
    repeat first [rewrite lookup_insert_ne by done
                 |rewrite lookup_delete_ne by done].
    destruct (gen_params !! "repetition_penalty"%string),
             (gen_params !! "stop_words"%string),
             (gen_params !! "response_format"%string);
      repeat (case_decide; simplify_eq); done.
Qed.

(** X7: With a positive token limit, the request data is refused with
    [NotImplementedError] exactly for the models whose name, in lower
    case, starts with none of [gpt], [qwen] and [internlm]. *)
Theorem unsupported_model_refused (model messages : string)
    (gen_params : gmap string Value) (json : bool) (limit : Z) :
  gen_params !! "max_new_tokens"%string = Some (VInt limit) → 0 < limit →
  (generate_request_data model messages gen_params json
     = Raise (NotImplementedError model) ↔
   startswith (lower model) "gpt" = false ∧
   startswith (lower model) "qwen" = false ∧
   startswith (lower model) "internlm" = false) ∧
  (∀ e, generate_request_data model messages gen_params json = Raise e →
        e = NotImplementedError model).
Proof.
  intros Hlimit Hpos.
  rewrite (generate_request_data_positive _ _ _ _ limit) by done.
  destruct (startswith (lower model) "gpt"), (startswith (lower model) "qwen"),
           (startswith (lower model) "internlm"); simpl;
    (split; [split; [done||tauto|]; intros (? & ? & ?); done
            |intros e [= <-]; done || done]).
Qed.

Lemma two_keys_pool_ok : pool_ok (api "gpt-4o-mini" 2 ["k0"; "k1"]).
Proof. split; [simpl; lia|apply empty_subseteq]. Defined.

Lemma two_keys_has_valid_key : has_valid_key (api "gpt-4o-mini" 2 ["k0"; "k1"]).
Proof.
  exists "k0"%string. split; [apply list_elem_of_here|apply not_elem_of_empty].
Defined.

Lemma terminal_error_reports_budget_witness :
  2 = retry (api "gpt-4o-mini" 2 ["k0"; "k1"]) ∧
  find_error "boom" = errmsg gave_up_state ∧
  max_num_retries gave_up_state = retry (api "gpt-4o-mini" 2 ["k0"; "k1"]).
Proof.
  apply (terminal_error_reports_budget renderer strip (always server_error) 2 2
           (api "gpt-4o-mini" 2 ["k0"; "k1"]) 0 user_says_y params
           "<U>y</U><A>" 2 (find_error "boom") gave_up_state).
  - reflexivity.
  - simpl. lia.
  - vm_compute. reflexivity.
Defined.

Lemma no_budget_no_request_witness :
  ∃ st, _chat renderer strip (always server_error) 2 2
              (api "gpt-4o-mini" 0 ["k0"; "k1"]) 0 user_says_y params
        = Finished (Raise (CallingOpenAIFailed 0 "")) st ∧
        self st = api "gpt-4o-mini" 0 ["k0"; "k1"] ∧ posted st = 0%nat.
Proof.
  apply (no_budget_no_request renderer strip (always server_error) 2 2
           (api "gpt-4o-mini" 0 ["k0"; "k1"]) 0 user_says_y params "<U>y</U><A>"
           (Request json_header (body_of "<U>y</U><A>"))).
  - reflexivity.
  - reflexivity.
  - simpl. lia.
Defined.


Lemma error_without_code_escapes_witness :
  ∃ st, _chat renderer strip (always (ErrorReply None "oops")) 1 2
              (api "gpt-4o-mini" 2 ["k0"; "k1"]) 0 user_says_y params
        = Finished (Raise (KeyError "code")) st ∧
        posted st = 1%nat ∧ max_num_retries st = 0.
Proof.
  apply (error_without_code_escapes renderer strip
           (always (ErrorReply None "oops"))
           0 2 (api "gpt-4o-mini" 2 ["k0"; "k1"]) 0 user_says_y params
           "<U>y</U><A>" json_header (body_of "<U>y</U><A>") "oops").
  - reflexivity.
  - reflexivity.
  - exact two_keys_pool_ok.
  - exact two_keys_has_valid_key.
  - left. reflexivity.
  - simpl. lia.
  - simpl. lia.
  - reflexivity.
Defined.

Lemma no_tokens_no_request_witness :
  generate_request_data "llama-3" "<U>y</U><A>" no_tokens false = Ok EmptyRequest ∧
  ∃ st, _chat renderer strip (always (Completion " done ")) 1 2
              (api "llama-3" 2 ["k0"; "k1"]) 0 user_says_y no_tokens
        = Finished (Raise TypeError) st ∧ posted st = 0%nat.
Proof.
  apply (no_tokens_no_request renderer strip (always (Completion " done ")) 0 2
           (api "llama-3" 2 ["k0"; "k1"]) 0 user_says_y no_tokens "<U>y</U><A>" 0).
  - reflexivity.
  - reflexivity.
  - lia.
  - split; [simpl; lia|apply empty_subseteq].
  - exists "k0"%string. split; [apply list_elem_of_here|apply not_elem_of_empty].
  - simpl. lia.
  - simpl. lia.
Defined.

Lemma rotation_advances_by_one_witness :
  ∃ st', select_key 1 first_pass_state = Continue st' ∧
    key_ctr (self st') = 1%nat ∧ key st' = "k1"%string ∧
    header st' = Some (<["Authorization"%string := "Bearer k1"%string]> json_header).
Proof.
  apply (rotation_advances_by_one 0 first_pass_state json_header "k1").
  - reflexivity.
  - exact two_keys_pool_ok.
  - reflexivity.
  - apply not_elem_of_empty.
Defined.

Lemma organization_advances_by_one_witness :
  ∃ st' org,
    select_org (mkLoop (mkGPTAPI "gpt-4o-mini" 2 false ["k0"] ∅ 0 ["o0"; "o1"] 1)
                       0 "" (Some json_header) "k0" 0) = Continue st' ∧
    org_ctr (self st') = 0%nat ∧
    ["o0"; "o1"]%string !! org_ctr (self st') = Some org ∧
    header st' = Some (<["OpenAI-Organization"%string := org]> json_header).
Proof.
  apply (organization_advances_by_one
           (mkLoop (mkGPTAPI "gpt-4o-mini" 2 false ["k0"] ∅ 0 ["o0"; "o1"] 1)
                   0 "" (Some json_header) "k0" 0)).
  - discriminate.
  - simpl. lia.
Defined.

Lemma selected_key_is_valid_witness :
  key selected_state ∈ keys (self selected_state) ∧
  (key selected_state ∉ invalid_keys (self selected_state)) ∧
  ∃ h, header selected_state = Some h ∧
       h !! "Authorization"%string = Some ("Bearer " +:+ key selected_state)%string.
Proof.
  apply (selected_key_is_valid 2 first_pass_state selected_state).
  vm_compute. reflexivity.
Defined.

Lemma every_key_tried_once_witness :
  ∃ st, _chat renderer strip (always no_quota) 3 2
              (api "gpt-4o-mini" 1 ["k0"; "k1"]) 0 user_says_y params
        = Finished (Raise AllKeysInsufficientQuota) st ∧
        posted st = (0 + size (valid_keys (api "gpt-4o-mini" 1 ["k0"; "k1"])))%nat ∧
        max_num_retries st = 0 ∧
        (∀ k, k ∈ keys (api "gpt-4o-mini" 1 ["k0"; "k1"]) →
              k ∈ invalid_keys (self st)).
Proof.
  apply (every_key_tried_once renderer strip (always no_quota)
           (fun _ _ _ => ex_intro _ "no quota"%string eq_refl)
           3 2 (api "gpt-4o-mini" 1 ["k0"; "k1"]) 0 user_says_y params
           "<U>y</U><A>" json_header (body_of "<U>y</U><A>")).
  - reflexivity.
  - reflexivity.
  - apply (bool_decide_unpack _). vm_compute. exact I.
  - split; [simpl; lia|apply empty_subseteq].
  - left. reflexivity.
  - simpl. lia.
  - simpl. lia.
  - vm_compute. lia.
Defined.

Lemma request_body_of_gpt_witness :
  ∃ data,
    generate_request_data "GPT-4o" "<U>y</U><A>" long_answer true
      = Ok (Request {["content-type"%string := "application/json"%string]} data) ∧
    data !! "max_tokens"%string = Some (VInt (Z.min 8000 4096)) ∧
    data !! "stop"%string =
      match long_answer !! "stop_words"%string with
      | Some v => Some v
      | None => long_answer !! "stop"%string
      end ∧
    data !! "frequency_penalty"%string =
      match long_answer !! "repetition_penalty"%string with
      | Some v => Some v
      | None => long_answer !! "frequency_penalty"%string
      end ∧
    data !! "max_new_tokens"%string = None ∧
    data !! "stop_words"%string = None ∧
    data !! "repetition_penalty"%string = None ∧
    data !! "top_k"%string = None ∧
    data !! "response_format"%string =
      (if true then Some json_object_format
       else long_answer !! "response_format"%string).
Proof.
  apply (request_body_of_gpt "GPT-4o" "<U>y</U><A>" long_answer true 8000).
  - reflexivity.
  - lia.
  - reflexivity.
Defined.

Lemma unsupported_model_refused_witness :
  (generate_request_data "llama-3" "<U>y</U><A>" params false
     = Raise (NotImplementedError "llama-3") ↔
   startswith (lower "llama-3") "gpt" = false ∧
   startswith (lower "llama-3") "qwen" = false ∧
   startswith (lower "llama-3") "internlm" = false) ∧
  (∀ e, generate_request_data "llama-3" "<U>y</U><A>" params false = Raise e →
        e = NotImplementedError "llama-3").
Proof.
  apply (unsupported_model_refused "llama-3" "<U>y</U><A>" params false 512).
  - reflexivity.
  - lia.
Defined.
End DispatcherMore.

(** ** The parsers of the inputs of actions *)

Module ParserFacts.

Import ActionParser PyLib MoreScenarios.

Lemma register_spec pd act api tables :
  register pd act api tables =
  if bool_decide (well_formed api)
  then Returns (with_parameter_description pd api,
                (<[key_of act api := parameters api]> tables.1,
                 <[key_of act api := required api]> tables.2))
  else Fails (ValueError_unknown_parameters
                (if is_toolkit act then name act +:+ "." +:+ api_name api
                 else api_name api)
                (list_to_set (required api) ∖ names (parameters api))).
Proof. reflexivity. Qed.

Lemma register_all_returns pd act apis : ∀ tables,
  Forall well_formed apis →
  ∃ apis', register_all pd act apis tables =
    Returns (apis',
             (foldl (fun t api => <[key_of act api := parameters api]> t) tables.1 apis,
              foldl (fun t api => <[key_of act api := required api]> t) tables.2 apis)).
Proof.
  induction apis as [|api rest IH]; intros tables Hall; simpl.
  - exists []. by destruct tables.
  - apply Forall_cons in Hall as [Hapi Hrest].
    rewrite register_spec, bool_decide_eq_true_2 by done.
    destruct (IH (<[key_of act api := parameters api]> tables.1,
                  <[key_of act api := required api]> tables.2) Hrest)
      as [rest' Hrest']. rewrite Hrest'. by eexists.
Qed.

Lemma register_all_fails pd act apis : ∀ tables,
  ¬ Forall well_formed apis →
  ∃ function unknown, unknown ≠ ∅ ∧
    register_all pd act apis tables =
    Fails (ValueError_unknown_parameters function unknown).
Proof.
  induction apis as [|api rest IH]; intros tables Hnot; simpl.
  - exfalso. apply Hnot. constructor.
  - rewrite register_spec. case_bool_decide as Hapi.
    + destruct (IH (<[key_of act api := parameters api]> tables.1,
                    <[key_of act api := required api]> tables.2))
        as (f & unknown & Hne & Hfail).
      { intros Hrest. apply Hnot. by constructor. }
      rewrite Hfail. eauto.
    + eexists _, _. split; [|done]. intros Hempty. apply Hapi.
      unfold well_formed. intros k Hk.
      destruct (decide (k ∈ names (parameters api))) as [|Hnin]; [done|].
      assert (k ∈ (list_to_set (required api) ∖ names (parameters api) : gset string))
        as Hin by (apply elem_of_difference; done).
      rewrite Hempty in Hin. by apply not_elem_of_empty in Hin.
Qed.

Lemma consistent_insert params reqs key api :
  consistent params reqs → well_formed api →
  consistent (<[key := parameters api]> params) (<[key := required api]> reqs).
Proof.
  intros Hcons Hapi k. destruct (decide (key = k)) as [->|Hne].
  - by rewrite !lookup_insert_eq.
  - rewrite !lookup_insert_ne by done. apply Hcons.
Qed.

Lemma consistent_foldl act apis : ∀ params reqs,
  consistent params reqs → Forall well_formed apis →
  consistent
    (foldl (fun t api => <[key_of act api := parameters api]> t) params apis)
    (foldl (fun t api => <[key_of act api := required api]> t) reqs apis).
Proof.
  induction apis as [|api rest IH]; intros params reqs Hcons Hall; [done|].
  apply Forall_cons in Hall as [Hapi Hrest]. simpl.
  apply IH; [|done]. by apply consistent_insert.
Qed.

Lemma init_tables pd act :
  Forall well_formed (apis_of act) →
  ∃ self, __init__ pd act = Returns self ∧
    _api2param self =
      foldl (fun t api => <[key_of act api := parameters api]> t) ∅ (apis_of act) ∧
    _api2required self =
      foldl (fun t api => <[key_of act api := required api]> t) ∅ (apis_of act).
Proof.
  intros Hall. unfold __init__, apis_of in *.
  destruct (description act) as [[apis|api]|].
  - destruct (register_all_returns pd act apis (∅, ∅) Hall) as [apis' Hreg].
    rewrite Hreg. by eexists.
  - apply Forall_cons in Hall as [Hapi _].
    rewrite register_spec, bool_decide_eq_true_2 by done. by eexists.
  - by eexists.
Qed.

Lemma init_fails pd act :
  ¬ Forall well_formed (apis_of act) →
  ∃ function unknown, unknown ≠ ∅ ∧
    __init__ pd act = Fails (ValueError_unknown_parameters function unknown).
Proof.
  intros Hnot. unfold __init__, apis_of in *.
  destruct (description act) as [[apis|api]|].
  - destruct (register_all_fails pd act apis (∅, ∅) Hnot)
      as (f & unknown & Hne & Hfail). rewrite Hfail. eauto.
  - destruct (register_all_fails pd act [api] (∅, ∅) Hnot)
      as (f & unknown & Hne & Hfail). simpl in Hfail.
    destruct (register pd act api (∅, ∅)) as [[api' tables]|e]; [done|].
    injection Hfail as ->. eauto.
  - exfalso. apply Hnot. constructor.
Qed.

(** The required names that are not parameters of a function that is not
    well formed are not empty. *)
Lemma unknown_not_empty (api : Api) :
  ¬ well_formed api →
  (list_to_set (required api) ∖ names (parameters api) : gset string) ≠ ∅.
Proof.
  intros Hapi Hempty. apply Hapi. unfold well_formed. intros k Hk.
  destruct (decide (k ∈ names (parameters api))) as [|Hnin]; [done|].
  assert (k ∈ (list_to_set (required api) ∖ names (parameters api) : gset string))
    as Hin by (apply elem_of_difference; done).
  rewrite Hempty in Hin. by apply not_elem_of_empty in Hin.
Qed.

(** The loop stops at the first function that is not well formed, with
    its name and its required names that are not parameters. *)
Lemma register_all_first_bad pd act apis : ∀ tables,
  ¬ Forall well_formed apis →
  ∃ good bad rest,
    apis = good ++ bad :: rest ∧ Forall well_formed good ∧ ¬ well_formed bad ∧
    register_all pd act apis tables =
    Fails (ValueError_unknown_parameters
             (if is_toolkit act then name act +:+ "." +:+ api_name bad
              else api_name bad)
             (list_to_set (required bad) ∖ names (parameters bad))).
Proof.
  induction apis as [|api rest IH]; intros tables Hnot; simpl.
  - exfalso. apply Hnot. constructor.
  - rewrite register_spec. case_bool_decide as Hapi.
    + destruct (IH (<[key_of act api := parameters api]> tables.1,
                    <[key_of act api := required api]> tables.2))
        as (good & bad & rest' & Hsplit & Hgood & Hbad & Hfail).
      { intros Hrest. apply Hnot. by constructor. }
      rewrite Hfail. exists (api :: good), bad, rest'.
      split_and!; [by rewrite Hsplit|by constructor|done|done].
    + exists [], api, rest. split_and!; [done|constructor|done|done].
Qed.

Lemma init_first_bad pd act :
  ¬ Forall well_formed (apis_of act) →
  ∃ good bad rest,
    apis_of act = good ++ bad :: rest ∧ Forall well_formed good ∧
    ¬ well_formed bad ∧
    __init__ pd act =
    Fails (ValueError_unknown_parameters
             (if is_toolkit act then name act +:+ "." +:+ api_name bad
              else api_name bad)
             (list_to_set (required bad) ∖ names (parameters bad))).
Proof.
  intros Hnot. unfold __init__, apis_of in *.
  destruct (description act) as [[apis|api]|].
  - destruct (register_all_first_bad pd act apis (∅, ∅) Hnot)
      as (good & bad & rest & Hsplit & Hgood & Hbad & Hfail).
    rewrite Hfail. eauto 10.
  - assert (Hapi : ¬ well_formed api).
    { intros Hapi. apply Hnot. by repeat constructor. }
    rewrite register_spec, bool_decide_eq_false_2 by done.
    exists [], api, []. split_and!; [done|constructor|done|done].
  - exfalso. apply Hnot. constructor.
Qed.

Lemma init_returns_well_formed pd act self :
  __init__ pd act = Returns self → Forall well_formed (apis_of act).
Proof.
  intros Hself.
  destruct (decide (Forall well_formed (apis_of act))) as [|Hnot]; [done|].
  destruct (init_fails pd act Hnot) as (f & u & _ & Hfail). congruence.
Qed.

Lemma init_consistent pd act self :
  __init__ pd act = Returns self →
  consistent (_api2param self) (_api2required self).
Proof.
  intros Hself. pose proof (init_returns_well_formed _ _ _ Hself) as Hall.
  destruct (init_tables pd act Hall) as (self' & Hself' & Hparams & Hreqs).
  assert (self' = self) by congruence. subst self'. rewrite Hparams, Hreqs.
  apply consistent_foldl; [|done]. intros k. by rewrite !lookup_empty.
Qed.

(** The dictionary inputs a constructed parser accepts under a name. *)
Lemma check_keys_object self d name :
  check_keys self (JObject d) name =
  match _api2param self !! name with
  | None => Fails (Python (KeyError name))
  | Some params =>
      if bool_decide (dom d ⊆ names params) then
        match _api2required self !! name with
        | None => Fails (Python (KeyError name))
        | Some req =>
            if bool_decide ((list_to_set req : gset string) ⊆ dom d)
            then Returns (JObject d)
            else Fails (ParseError_missing_required (list_to_set req ∖ dom d))
        end
      else Fails (ParseError_unknown_arguments (dom d ∖ names params) false)
  end.
Proof.
  unfold check_keys. simpl. destruct (_api2param self !! name); [|done].
  by case_bool_decide.
Qed.

Section JsonFacts.
Variable fenced : string → option string.
Variable strip : string → string.
Variable loads : string → option Json.

(** X18: The construction succeeds exactly when every function of the
    description has its required names among its parameters.  Otherwise it
    raises [ValueError] for the first function, in the order of the
    description, of which this is not so: the error carries the name of
    that function, after the name of the action for a toolkit, and
    exactly its required names that are not parameters, of which there is
    at least one. *)
Theorem init_checks_required (pd : string) (act : Action) :
  (Forall well_formed (apis_of act) → ∃ self, __init__ pd act = Returns self) ∧
  (¬ Forall well_formed (apis_of act) →
   ∃ good bad rest,
     apis_of act = good ++ bad :: rest ∧ Forall well_formed good ∧
     ¬ well_formed bad ∧
     (list_to_set (required bad) ∖ names (parameters bad) : gset string) ≠ ∅ ∧
     __init__ pd act =
     Fails (ValueError_unknown_parameters
              (if is_toolkit act then name act +:+ "." +:+ api_name bad
               else api_name bad)
              (list_to_set (required bad) ∖ names (parameters bad)))).
Proof.
  split.
  - intros Hall. destruct (init_tables pd act Hall) as (self & Hself & _). eauto.
  - intros Hnot.
    destruct (init_first_bad pd act Hnot)
      as (good & bad & rest & Hsplit & Hgood & Hbad & Hfail).
    exists good, bad, rest. split_and!; try done. by apply unknown_not_empty.
Qed.

(** In a constructed parser the two tables have the same names, and the
    required names of each are names of its parameters. *)
Lemma init_tables_agree (pd : string) (act : Action) (self : BaseParser)
    (fname : string) :
  __init__ pd act = Returns self →
  match _api2param self !! fname, _api2required self !! fname with
  | Some ps, Some rs => (list_to_set rs : gset string) ⊆ names ps
  | None, None => True
  | _, _ => False
  end.
Proof. intros Hself. apply (init_consistent pd act self Hself). Qed.

(** X19: An action that is not a toolkit registers every function of its
    description under ['run']: the last one replaces the others. *)
Theorem init_run_is_last_function (pd : string) (act : Action)
    (apis : list Api) (last : Api) :
  is_toolkit act = false →
  description act = Some (ApiList (apis ++ [last])) →
  Forall well_formed (apis ++ [last]) →
  ∃ self, __init__ pd act = Returns self ∧
    _api2param self = {["run"%string := parameters last]} ∧
    _api2required self = {["run"%string := required last]}.
Proof.
  intros Htoolkit Hdesc Hall.
  destruct (init_tables pd act) as (self & Hself & Hparams & Hreqs).
  { unfold apis_of. by rewrite Hdesc. }
  exists self. split; [done|]. unfold apis_of, key_of in *.
  rewrite Hdesc, Htoolkit in *. rewrite Hparams, Hreqs. clear.
  assert (Hfold : ∀ (A : Type) (f : Api → A) (l : list Api) (t : gmap string A)
                    (x : Api),
            (∀ k, k ≠ "run"%string → t !! k = None) →
            foldl (fun t api => <["run"%string := f api]> t) t (l ++ [x])
            = {["run"%string := f x]}).
  { intros A f l. induction l as [|y l IH]; intros t x Ht; simpl.
    - apply map_eq. intros k. destruct (decide (k = "run"%string)) as [->|Hne].
      + by rewrite lookup_insert_eq, lookup_singleton_eq.
      + rewrite lookup_insert_ne, lookup_singleton_ne by done. by apply Ht.
    - apply IH. intros k Hne. rewrite lookup_insert_ne by done. by apply Ht. }
  split; apply Hfold; intros k _; apply lookup_empty.
Qed.

(** X20: A dictionary is accepted, and returned as it is, exactly when its
    keys are names of parameters and include the required names. *)
Theorem json_parse_inputs_dict (self : BaseParser) (d : gmap string Json)
    (fname : string) (params : list Param) (req : list string) :
  _api2param self !! fname = Some params →
  _api2required self !! fname = Some req →
  (json_parse_inputs fenced strip loads self (InDict d) fname
     = Returns (JObject d) ↔
   dom d ⊆ names params ∧ (list_to_set req : gset string) ⊆ dom d) ∧
  (∀ j, json_parse_inputs fenced strip loads self (InDict d) fname = Returns j →
        j = JObject d).
Proof.
  intros Hparams Hreq. simpl. rewrite check_keys_object, Hparams, Hreq.
  split.
  - repeat case_bool_decide; split; try done; try tauto.
  - intros j. repeat case_bool_decide; try done. by intros [= <-].
Qed.

(** An unknown argument is reported before a missing one: a dictionary
    with a key that is no parameter is rejected for it, whether or not the
    required names are there. *)
Lemma json_parse_inputs_unknown_first (self : BaseParser)
    (d : gmap string Json) (fname k : string) (params : list Param) :
  _api2param self !! fname = Some params →
  k ∈ dom d → k ∉ names params →
  json_parse_inputs fenced strip loads self (InDict d) fname
  = Fails (ParseError_unknown_arguments (dom d ∖ names params) false).
Proof.
  intros Hparams Hk Hunknown. simpl. rewrite check_keys_object, Hparams.
  rewrite bool_decide_eq_false_2; [done|]. intros Hsub. by apply Hunknown, Hsub.
Qed.

(** X21: A constructed parser accepts, under each of its names, the
    dictionary that holds the required arguments and no other. *)
Theorem constructed_parser_accepts_required (pd : string) (act : Action)
    (self : BaseParser) (fname : string) (req : list string)
    (d : gmap string Json) :
  __init__ pd act = Returns self →
  _api2required self !! fname = Some req →
  dom d = list_to_set req →
  json_parse_inputs fenced strip loads self (InDict d) fname = Returns (JObject d).
Proof.
  intros Hself Hreq Hdom. simpl. rewrite check_keys_object.
  pose proof (init_consistent pd act self Hself fname) as Hcons.
  rewrite Hreq in Hcons. destruct (_api2param self !! fname) as [ps|]; [|done].
  rewrite Hreq, Hdom. by rewrite !bool_decide_eq_true_2.
Qed.

(** X22: A text that decodes to a list of parameter names which includes the
    required names passes the checks, and the list is returned in place of
    a dictionary. *)
Theorem json_parse_inputs_returns_list (self : BaseParser) (s : string)
    (ks : list string) (fname : string) (params : list Param) (req : list string) :
  fenced s = None →
  loads s = Some (JArray (JString <$> ks)) →
  _api2param self !! fname = Some params →
  _api2required self !! fname = Some req →
  (list_to_set ks : gset string) ⊆ names params →
  (list_to_set req : gset string) ⊆ list_to_set ks →
  json_parse_inputs fenced strip loads self (InStr s) fname
  = Returns (JArray (JString <$> ks)).
Proof.
  intros Hfence Hloads Hparams Hreq Hknown Hrequired.
  unfold json_parse_inputs. rewrite Hfence, Hloads. unfold check_keys, key_set.
  assert (Hhash : forallb hashable (JString <$> ks) = true).
  { apply forallb_forall. intros j Hj%list_elem_of_In.
    apply list_elem_of_fmap in Hj as (k & -> & _). done. }
  assert (Hstrs : omap string_of (JString <$> ks) = ks).
  { clear. induction ks as [|k ks IH]; simpl; [done|]. f_equal. apply IH. }
  assert (Hnone : existsb (λ j, bool_decide (string_of j = None))
                          (JString <$> ks) = false).
  { clear. induction ks as [|k ks IH]; simpl; [done|]. apply IH. }
  rewrite Hhash, Hstrs, Hnone, Hparams.
  rewrite (bool_decide_eq_true_2 _ Hknown). cbn [negb andb]. rewrite Hreq.
  by rewrite (bool_decide_eq_true_2 _ Hrequired).
Qed.

(** A parser built for an action without description has no name: every
    dictionary is answered with [KeyError]. *)
Lemma no_description_no_name (pd : string) (act : Action)
    (d : gmap string Json) (fname : string) :
  description act = None →
  ∃ self, __init__ pd act = Returns self ∧
    json_parse_inputs fenced strip loads self (InDict d) fname
    = Fails (Python (KeyError fname)).
Proof.
  intros Hdesc. unfold __init__. rewrite Hdesc. eexists. split; [done|].
  unfold json_parse_inputs. by rewrite check_keys_object.
Qed.

End JsonFacts.

Lemma weather_api_well_formed : well_formed weather_api.
Proof. apply (bool_decide_unpack _). vm_compute. exact I. Defined.

Lemma init_run_is_last_function_witness :
  ∃ self, __init__ JSON_PARAMETER_DESCRIPTION two_functions_action = Returns self ∧
    _api2param self = {["run"%string := parameters forecast_api]} ∧
    _api2required self = {["run"%string := required forecast_api]}.
Proof.
  apply (init_run_is_last_function JSON_PARAMETER_DESCRIPTION two_functions_action
           [weather_api] forecast_api).
  - reflexivity.
  - reflexivity.
  - apply Forall_cons. split; [exact weather_api_well_formed|].
    apply Forall_cons. split; [|apply Forall_nil_2].
    apply (bool_decide_unpack _). vm_compute. exact I.
Defined.

Lemma json_parse_inputs_dict_witness :
  (json_parse_inputs no_fence strip one_text_loads weather_parser
     (InDict city_only) "run" = Returns (JObject city_only) ↔
   dom city_only ⊆ names (parameters weather_api) ∧
   (list_to_set (required weather_api) : gset string) ⊆ dom city_only) ∧
  (∀ j, json_parse_inputs no_fence strip one_text_loads weather_parser
          (InDict city_only) "run" = Returns j → j = JObject city_only).
Proof.
  apply (json_parse_inputs_dict no_fence strip one_text_loads weather_parser
           city_only "run" (parameters weather_api) (required weather_api)).
  - reflexivity.
  - reflexivity.
Defined.

Lemma json_parse_inputs_unknown_first_witness :
  json_parse_inputs no_fence strip one_text_loads weather_parser
    (InDict {["town"%string := JString "Paris"]}) "run"
  = Fails (ParseError_unknown_arguments
             (dom ({["town"%string := JString "Paris"]} : gmap string Json)
              ∖ names (parameters weather_api)) false).
Proof.
  apply (json_parse_inputs_unknown_first no_fence strip one_text_loads
           weather_parser {["town"%string := JString "Paris"]} "run" "town"
           (parameters weather_api)).
  - reflexivity.
  - apply elem_of_dom. eexists. apply lookup_singleton_eq.
  - apply (bool_decide_unpack _). vm_compute. exact I.
Defined.

Lemma constructed_parser_accepts_required_witness :
  json_parse_inputs no_fence strip one_text_loads weather_parser
    (InDict city_only) "run" = Returns (JObject city_only).
Proof.
  apply (constructed_parser_accepts_required no_fence strip one_text_loads
           JSON_PARAMETER_DESCRIPTION weather_action weather_parser "run"
           (required weather_api) city_only).
  - reflexivity.
  - reflexivity.
  - apply (bool_decide_unpack _). vm_compute. exact I.
Defined.

Lemma json_parse_inputs_returns_list_witness :
  json_parse_inputs no_fence strip one_text_loads weather_parser
    (InStr city_list_text) "run"
  = Returns (JArray (JString <$> ["city"%string])).
Proof.
  apply (json_parse_inputs_returns_list no_fence strip one_text_loads
           weather_parser city_list_text ["city"%string] "run"
           (parameters weather_api) (required weather_api)).
  - reflexivity.
  - reflexivity.
  - reflexivity.
  - reflexivity.
  - apply (bool_decide_unpack _). vm_compute. exact I.
  - apply (bool_decide_unpack _). vm_compute. exact I.
Defined.

Lemma no_description_no_name_witness :
  ∃ self, __init__ JSON_PARAMETER_DESCRIPTION (mkAction "Idle" None false)
          = Returns self ∧
    json_parse_inputs no_fence strip one_text_loads self (InDict city_only) "run"
    = Fails (Python (KeyError "run")).
Proof.
  apply (no_description_no_name no_fence strip one_text_loads
           JSON_PARAMETER_DESCRIPTION (mkAction "Idle" None false) city_only "run").
  reflexivity.
Defined.
End ParserFacts.

(** ** The search filter and the content fetcher *)

Module BrowserFacts.

Import WebBrowser MoreScenarios.

Section SearchFacts.
Variable json_dumps : string → string.

Lemma filter_loop_spec self bl results : ∀ count acc,
  black_list self = Some bl →
  (count < limit self)%nat →
  filter_loop json_dumps self results count acc =
  Ok (numbered count
        (entry_of json_dumps <$> take (limit self - count) (passing bl results)) acc).
Proof.
  induction results as [|[[u snippet] t] rest IH]; intros count acc Hbl Hcount.
  - simpl. unfold passing. rewrite filter_nil, take_nil. done.
  - simpl. rewrite Hbl. unfold passing. rewrite filter_cons. simpl.
    destruct (allowed bl u) eqn:Hallowed.
    + rewrite decide_True by done.
      destruct (limit self - count)%nat as [|n] eqn:Hleft; [lia|]. simpl.
      destruct (Z.geb_spec (Z.of_nat (S count)) (topk self)) as [Hstop|Hstop].
      * assert (n = O) by (unfold limit in *; lia). subst n.
        by rewrite take_0.
      * rewrite (IH (S count)); [|done|unfold limit in *; lia].
        replace (limit self - S count)%nat with n by lia. done.
    + rewrite decide_False by done. by apply IH.
Qed.

Lemma numbered_lookup kept : ∀ count acc i,
  numbered count kept acc !! i =
  if decide (count ≤ i < count + length kept)%nat then kept !! (i - count)%nat
  else acc !! i.
Proof.
  induction kept as [|e rest IH]; intros count acc i; simpl.
  - case_decide; [lia|done].
  - rewrite IH. repeat case_decide; try lia.
    + replace (i - count)%nat with (S (i - S count)) by lia. done.
    + assert (i = count) by lia. subst i.
      rewrite lookup_insert_eq. by replace (count - count)%nat with O by lia.
    + rewrite lookup_insert_ne by lia. done.
Qed.

Lemma filter_results_lookup self bl results (i : nat) :
  black_list self = Some bl →
  ∃ d, _filter_results json_dumps self results = Ok d ∧
       d !! i = entry_of json_dumps <$> take (limit self) (passing bl results) !! i.
Proof.
  intros Hbl. eexists. split.
  - unfold _filter_results. apply filter_loop_spec; [done|]. unfold limit. lia.
  - rewrite numbered_lookup, Nat.sub_0_r, lookup_empty, Nat.sub_0_r.
    case_decide as Hi.
    + by rewrite list_lookup_fmap.
    + rewrite length_fmap in Hi. symmetry.
      rewrite (lookup_ge_None_2 (take _ _)) by lia. done.
Qed.

(** X23: The dictionary holds, under the keys 0, 1, ..., the first results
    that pass the black list and are not PDF files, in the order of the
    input, up to [topk] of them and one at least. *)
Theorem filter_results_first_passing (self : BaseSearch) (bl : list string)
    (results : list (string * string * string)) :
  black_list self = Some bl →
  ∃ d, _filter_results json_dumps self results = Ok d ∧
       ∀ i, d !! i = entry_of json_dumps <$> take (limit self) (passing bl results) !! i.
Proof.
  intros Hbl.
  destruct (filter_results_lookup self bl results O Hbl) as (d & Hd & _).
  exists d. split; [done|]. intros i.
  destruct (filter_results_lookup self bl results i Hbl) as (d' & Hd' & Hi).
  congruence.
Qed.

(** X24: No entry of the dictionary has a URL that contains a domain of the
    black list or ends with [.pdf], and every entry comes from a result of
    the input. *)
Theorem filter_results_allowed (self : BaseSearch) (bl : list string)
    (results : list (string * string * string)) (d : gmap nat Entry)
    (i : nat) (e : Entry) :
  black_list self = Some bl →
  _filter_results json_dumps self results = Ok d →
  d !! i = Some e →
  (∀ domain, domain ∈ bl → contains domain (url e) = false) ∧
  PyLib.endswith (url e) ".pdf" = false ∧
  ∃ snippet, (url e, snippet, title e) ∈ results ∧
             summ e = inner (json_dumps snippet).
Proof.
  intros Hbl Hd He.
  destruct (filter_results_lookup self bl results i Hbl) as (d' & Hd' & Hi).
  assert (d' = d) by congruence. subst d'. rewrite He in Hi.
  symmetry in Hi. apply fmap_Some in Hi as ([[u snippet] t] & Hr & ->).
  apply lookup_take_Some in Hr as [Hr _].
  apply list_elem_of_lookup_2, list_elem_of_filter in Hr as [Hallowed Hin].
  simpl in *. unfold allowed in Hallowed.
  apply andb_true_iff in Hallowed as [Hdomains Hpdf].
  split; [|split].
  - intros domain Hdomain. rewrite forallb_forall in Hdomains.
    apply negb_true_iff, Hdomains, list_elem_of_In, Hdomain.
  - by apply negb_true_iff.
  - by exists snippet.
Qed.

(** The keys of the dictionary are the numbers below its size, and the
    size is at most [topk] or one, and at most the number of results. *)
Lemma filter_results_keys (self : BaseSearch) (bl : list string)
    (results : list (string * string * string)) (d : gmap nat Entry) :
  black_list self = Some bl →
  _filter_results json_dumps self results = Ok d →
  ∃ n, (∀ i, is_Some (d !! i) ↔ (i < n)%nat) ∧
       (Z.of_nat n ≤ Z.max 1 (topk self)) ∧ (n ≤ length results)%nat.
Proof.
  intros Hbl Hd.
  exists (length (take (limit self) (passing bl results))). split; [|split].
  - intros i.
    destruct (filter_results_lookup self bl results i Hbl) as (d' & Hd' & Hi).
    assert (d' = d) by congruence. subst d'. rewrite Hi, fmap_is_Some.
    apply lookup_lt_is_Some.
  - rewrite length_take. unfold limit. lia.
  - rewrite length_take. unfold passing.
    pose proof (length_filter (λ r, allowed bl r.1.1 = true) results). lia.
Qed.

(** X25: With a [topk] that is not positive, the dictionary still has one
    entry as soon as a result passes: the first one that does. *)
Theorem filter_results_topk_not_positive (self : BaseSearch) (bl : list string)
    (results : list (string * string * string)) (r : string * string * string)
    (rest : list (string * string * string)) :
  black_list self = Some bl →
  topk self ≤ 0 →
  passing bl results = r :: rest →
  _filter_results json_dumps self results = Ok {[O := entry_of json_dumps r]}.
Proof.
  intros Hbl Htopk Hpassing. unfold _filter_results.
  rewrite (filter_loop_spec self bl) by (done || unfold limit; lia).
  unfold limit. replace (Z.to_nat (Z.max 1 (topk self)) - 0)%nat with 1%nat by lia.
  by rewrite Hpassing.
Qed.

(** X26: With the default black list [None], the filter raises [TypeError] on
    the first result; only the empty list of results is filtered. *)
Theorem filter_results_without_black_list (self : BaseSearch)
    (results : list (string * string * string)) :
  black_list self = None →
  _filter_results json_dumps self results =
  match results with [] => Ok ∅ | _ :: _ => Raise TypeError end.
Proof.
  intros Hbl. unfold _filter_results.
  destruct results as [|[[u snippet] t] rest]; simpl; [done|]. by rewrite Hbl.
Qed.

End SearchFacts.

Lemma raw_result_tuple item r : raw_result item = Ok r ↔ tuple_of item r.
Proof.
  unfold raw_result, tuple_of, snippet_of. destruct r as [[u s] t]. simpl.
  destruct (href item), (description item), (body item), (item_title item);
    simpl; split; try done; try (intros [= -> -> ->]; done);
    try (intros ([= ->] & [= ->] & [= ->]); done);
    try (intros (? & ? & ?); done).
Qed.

(** X27: The tuples are built exactly when every item has a link, a title and
    a description or a body; the description is preferred to the body. *)
Theorem raw_results_tuples (response : list Item)
    (l : list (string * string * string)) :
  raw_results response = Ok l ↔ Forall2 tuple_of response l.
Proof.
  revert l. induction response as [|item rest IH]; intros l; simpl.
  - split; [intros [= <-]; constructor|]. by intros ->%Forall2_nil_inv_l.
  - destruct (raw_result item) as [r|e] eqn:Hitem; simpl.
    + destruct (raw_results rest) as [rs|e] eqn:Hrest; simpl.
      * split.
        -- intros [= <-]. constructor; [by apply raw_result_tuple|by apply IH].
        -- intros (r' & rs' & Hr' & Hrs' & ->)%Forall2_cons_inv_l.
           apply raw_result_tuple in Hr'. apply IH in Hrs'. congruence.
      * split; [done|].
        intros (r' & rs' & Hr' & Hrs' & ->)%Forall2_cons_inv_l.
        apply IH in Hrs'. done.
    + split; [done|].
      intros (r' & rs' & Hr' & Hrs' & ->)%Forall2_cons_inv_l.
      apply raw_result_tuple in Hr'. congruence.
Qed.

Section SearchLoop.
Variable json_dumps : string → string.
Variable _call_ddgs : nat → string → result (list Item).

Lemma search_loop_fails self query remaining : ∀ attempt,
  (∀ k, (attempt ≤ k < attempt + remaining)%nat →
        is_raise (attempt_result json_dumps _call_ddgs self query k) = true) →
  search_loop json_dumps _call_ddgs self query attempt remaining
  = (None, (attempt + remaining)%nat).
Proof.
  induction remaining as [|remaining IH]; intros attempt Hfail; simpl.
  - by rewrite Nat.add_0_r.
  - pose proof (Hfail attempt ltac:(lia)) as H. unfold attempt_result in H.
    destruct (bind _ _); [discriminate H|].
    rewrite IH; [f_equal; lia|]. intros k Hk. apply Hfail. lia.
Qed.

Lemma search_loop_succeeds self query found n : ∀ attempt remaining,
  (n < remaining)%nat →
  (∀ k, (attempt ≤ k < attempt + n)%nat →
        is_raise (attempt_result json_dumps _call_ddgs self query k) = true) →
  attempt_result json_dumps _call_ddgs self query (attempt + n) = Ok found →
  search_loop json_dumps _call_ddgs self query attempt remaining
  = (Some found, S (attempt + n)).
Proof.
  induction n as [|n IH]; intros attempt remaining Hn Hfail Hok;
    (destruct remaining as [|remaining]; [lia|]); simpl.
  - rewrite Nat.add_0_r in *. unfold attempt_result in Hok. by rewrite Hok.
  - pose proof (Hfail attempt ltac:(lia)) as H. unfold attempt_result in H.
    destruct (bind _ _); [discriminate H|].
    rewrite (IH (S attempt) remaining); [f_equal; lia|lia| |].
    + intros k Hk. apply Hfail. lia.
    + by replace (S attempt + n)%nat with (attempt + S n)%nat by lia.
Qed.

(** X28: When every attempt fails, in the call or in the parsing of the
    response, [search] makes exactly [max_retry] calls, none if
    [max_retry] is not positive, and raises its final exception. *)
Theorem search_gives_up (self : BaseSearch) (query : string) (max_retry : Z) :
  (∀ k, Z.of_nat k < max_retry →
        is_raise (attempt_result json_dumps _call_ddgs self query k) = true) →
  search json_dumps _call_ddgs self query max_retry = (None, Z.to_nat max_retry).
Proof.
  intros Hfail. unfold search. rewrite search_loop_fails; [done|].
  intros k Hk. apply Hfail. lia.
Qed.

(** X29: [search] returns the results of the first attempt that succeeds
    within [max_retry] attempts, after one call for each attempt up to it. *)
Theorem search_first_success (self : BaseSearch) (query : string)
    (max_retry : Z) (n : nat) (found : gmap nat Entry) :
  Z.of_nat n < max_retry →
  (∀ k, (k < n)%nat → is_raise (attempt_result json_dumps _call_ddgs self query k) = true) →
  attempt_result json_dumps _call_ddgs self query n = Ok found →
  search json_dumps _call_ddgs self query max_retry = (Some found, S n).
Proof.
  intros Hn Hfail Hok. unfold search.
  rewrite (search_loop_succeeds self query found n); [done|lia| |done].
  intros k Hk. apply Hfail. lia.
Qed.

End SearchLoop.

Lemma collapse_head c text :
  ∃ rest, collapse_newlines (String c text) = String c rest.
Proof.
  revert c. induction text as [|c' text IH]; intros c; [by eexists|].
  cbn [collapse_newlines].
  destruct (is_newline c && is_newline c') eqn:Hnl; [|by eexists].
  apply andb_true_iff in Hnl as [Hc Hc'].
  apply Ascii.eqb_eq in Hc, Hc'. subst. apply IH.
Qed.

Lemma collapse_step c c' text :
  collapse_newlines (String c (String c' text)) =
  if is_newline c && is_newline c' then collapse_newlines (String c' text)
  else String c (collapse_newlines (String c' text)).
Proof. reflexivity. Qed.

Lemma adjacent_step c c' text :
  adjacent_newlines (String c (String c' text)) =
  (is_newline c && is_newline c') || adjacent_newlines (String c' text).
Proof. reflexivity. Qed.

(** The cleaned text has no two line feeds in a row. *)
Lemma collapse_newlines_no_run (text : string) :
  adjacent_newlines (collapse_newlines text) = false.
Proof.
  induction text as [|c text IH]; [done|].
  destruct text as [|c' text]; [done|]. rewrite collapse_step.
  destruct (is_newline c && is_newline c') eqn:Hnl; [done|].
  destruct (collapse_head c' text) as [rest Hrest].
  rewrite Hrest in *. by rewrite adjacent_step, Hnl, IH.
Qed.

(** A text without two line feeds in a row is left as it is; cleaning a
    text twice is cleaning it once. *)
Lemma collapse_newlines_fixed (text : string) :
  adjacent_newlines text = false → collapse_newlines text = text.
Proof.
  induction text as [|c text IH]; [done|].
  destruct text as [|c' text]; [done|]. rewrite adjacent_step.
  intros [Hnl Hrest]%orb_false_iff. rewrite collapse_step, Hnl. by rewrite IH.
Qed.

Lemma collapse_newlines_idempotent (text : string) :
  collapse_newlines (collapse_newlines text) = collapse_newlines text.
Proof. apply collapse_newlines_fixed, collapse_newlines_no_run. Qed.

(** Cleaning removes line feeds only: the other characters are kept, in
    their order. *)
Lemma collapse_newlines_keeps_text (text : string) :
  not_newline (collapse_newlines text) = not_newline text.
Proof.
  induction text as [|c text IH]; [done|].
  destruct text as [|c' text]; [done|]. rewrite collapse_step.
  destruct (is_newline c && is_newline c') eqn:Hnl.
  - rewrite IH. apply andb_true_iff in Hnl as [Hc _].
    unfold not_newline. cbn [list_ascii_of_string].
    rewrite (filter_cons _ c). by rewrite decide_False by (by rewrite Hc).
  - unfold not_newline in *. cbn [list_ascii_of_string] in *.
    rewrite !(filter_cons _ c). case_decide; [f_equal|]; apply IH.
Qed.

Section FetchFacts.
Variable get : string → Z → string + string.
Variable get_text : string → string.

(** X30: [fetch] reports a failed request with its message, and a page with
    its text, in which no two line feeds follow each other. *)
Theorem fetch_result (timeout : Z) (u : string) :
  match get u timeout with
  | inl message => fetch get get_text timeout u = (false, message)
  | inr html =>
      ∃ text, fetch get get_text timeout u = (true, text) ∧
              adjacent_newlines text = false ∧
              not_newline text = not_newline (get_text html)
  end.
Proof.
  unfold fetch. destruct (get u timeout) as [message|html]; [done|].
  eexists. split; [done|]. split.
  - apply collapse_newlines_no_run.
  - apply collapse_newlines_keeps_text.
Qed.

End FetchFacts.

Lemma filter_results_first_passing_witness :
  ∃ d, _filter_results quoted top_two five_results = Ok d ∧
       ∀ i, d !! i = entry_of quoted
                       <$> take (limit top_two)
                                (passing default_black_list five_results) !! i.
Proof.
  apply (filter_results_first_passing quoted top_two default_black_list
           five_results).
  reflexivity.
Defined.

Lemma filter_results_allowed_witness :
  (∀ domain, domain ∈ default_black_list →
             contains domain "https://b.org/y" = false) ∧
  PyLib.endswith "https://b.org/y" ".pdf" = false ∧
  ∃ snippet, ("https://b.org/y", snippet, "B")%string ∈ five_results ∧
             "second"%string = inner (quoted snippet).
Proof.
  apply (filter_results_allowed quoted top_two default_black_list five_results
           first_two 1 (mkEntry "https://b.org/y" "second" "B")).
  - reflexivity.
  - vm_compute. reflexivity.
  - reflexivity.
Defined.

Lemma filter_results_keys_witness :
  ∃ n, (∀ i, is_Some (first_two !! i) ↔ (i < n)%nat) ∧
       (Z.of_nat n ≤ Z.max 1 (topk top_two)) ∧ (n ≤ length five_results)%nat.
Proof.
  apply (filter_results_keys quoted top_two default_black_list five_results
           first_two).
  - reflexivity.
  - vm_compute. reflexivity.
Defined.

Lemma filter_results_topk_not_positive_witness :
  _filter_results quoted top_none five_results
  = Ok {[O := entry_of quoted ("https://a.org/x", "first", "A")%string]}.
Proof.
  apply (filter_results_topk_not_positive quoted top_none default_black_list
           five_results ("https://a.org/x", "first", "A")%string
           [("https://b.org/y", "second", "B"); ("https://c.org/z", "third", "C")]%string).
  - reflexivity.
  - simpl. lia.
  - vm_compute. reflexivity.
Defined.

Lemma filter_results_without_black_list_witness :
  _filter_results quoted no_black_list five_results = Raise TypeError.
Proof.
  apply (filter_results_without_black_list quoted no_black_list five_results).
  reflexivity.
Defined.

Lemma search_gives_up_witness :
  search quoted engine_down top_two "rocq" 3 = (None, Z.to_nat 3).
Proof.
  apply (search_gives_up quoted engine_down top_two "rocq" 3).
  intros k _. reflexivity.
Defined.

Lemma search_first_success_witness :
  search quoted engine_late top_two "rocq" 3 = (Some one_found, 2%nat).
Proof.
  apply (search_first_success quoted engine_late top_two "rocq" 3 1 one_found).
  - lia.
  - intros k Hk. destruct k as [|k]; [reflexivity|lia].
  - vm_compute. reflexivity.
Defined.
End BrowserFacts.
